(** * maubot-meeting-summary: a shallow embedding of [meeting_summary.py]

    The plugin listens for the notice in which the meeting bot announces a
    text log, fetches the log, extracts the participants, asks an AI backend
    for a summary, posts it and archives it.

    Conventions of the embedding:
    - a Python [str] is a Rocq [string]: an ASCII character is one [ascii],
      a character outside ASCII is the [ascii]s of its UTF-8 encoding. The
      order of [sorted] and the tests against ASCII text ([startswith],
      [lstrip], [join], the search of a [>]) are the same on the bytes as on
      the characters; where the program looks at single characters, in the
      regular expression and in the length of the transcript, the model
      cuts the bytes into characters ([Utf8]); a slice counts bytes, which
      are the characters of ASCII text;
    - an [async] method is a computation in the monad [M]: it appends to a
      trace of effects (calls to collaborators and log records) and either
      returns a value or raises a Python exception;
    - what the collaborators answer (Matrix client, HTTP session, AI
      backend, file system) is read from a [World]. *)

From Stdlib Require Import ZArith Ascii String List.
From stdpp Require Import base option list gmap strings sorting.

Local Open Scope Z_scope.

(** ** Python string operations *)

Module PyStr.

(** [len(s)] *)
Definition len (s : string) : Z := Z.of_nat (String.length s).

Fixpoint take (n : nat) (s : string) : string :=
  match n, s with
  | S k, String c r => String c (take k r)
  | _, _ => ""
  end.

Fixpoint drop (n : nat) (s : string) : string :=
  match n, s with
  | S k, String _ r => drop k r
  | _, _ => s
  end.

(** How a slice bound is resolved against a sequence of length [n]:
    a negative bound counts from the end, and both are clamped. *)
Definition clamp (n i : Z) : Z :=
  if i <? 0 then Z.max 0 (n + i) else Z.min n i.

(** [s[start:stop]], an omitted bound being [None]. *)
Definition slice (s : string) (start stop : option Z) : string :=
  let lo := from_option (clamp (len s)) 0 start in
  let hi := from_option (clamp (len s)) (len s) stop in
  take (Z.to_nat (hi - lo)) (drop (Z.to_nat lo) s).

(** [s.startswith(p)] *)
Fixpoint startswith (s p : string) {struct p} : bool :=
  match p, s with
  | "", _ => true
  | String a p', String b s' => if decide (a = b) then startswith s' p' else false
  | String _ _, "" => false
  end.

(** [s.endswith(p)] *)
Definition endswith (s p : string) : bool :=
  bool_decide (drop (String.length s - String.length p) s = p).

(** [s.lstrip(c)] for a one-character argument *)
Fixpoint lstrip (c : ascii) (s : string) : string :=
  match s with
  | String a r => if decide (a = c) then lstrip c r else s
  | "" => ""
  end.

(** [sep.join(l)] *)
Fixpoint join (sep : string) (l : list string) : string :=
  match l with
  | [] => ""
  | [x] => x
  | x :: r => x +:+ sep +:+ join sep r
  end.

(** [s.split(sep)] for a one-character separator: always at least one
    field, empty fields kept. *)
Fixpoint split (sep : ascii) (s : string) : list string :=
  match s with
  | "" => [""]
  | String a r =>
      if decide (a = sep) then "" :: split sep r
      else match split sep r with
           | x :: l => String a x :: l
           | [] => [String a ""]
           end
  end.

(** [c in s] for a character [c] *)
Fixpoint contains (c : ascii) (s : string) : bool :=
  match s with
  | "" => false
  | String a r => if decide (a = c) then true else contains c r
  end.

(** [s.find(c)] counted from the start of [s]; [None] is Python's -1. *)
Fixpoint find (c : ascii) (s : string) : option nat :=
  match s with
  | "" => None
  | String a r => if decide (a = c) then Some 0%nat else S <$> find c r
  end.

(** An ASCII digit, as in [string.digits] *)
Definition is_digit (c : ascii) : bool :=
  let n := N_of_ascii c in ((48 <=? n) && (n <=? 57))%N.

(** The order of [sorted] on strings: character by character, by code. *)
Definition lt (a b : string) : Prop := String.le a b ∧ a ≠ b.

End PyStr.

(** ** Characters

    A character outside ASCII is held as its UTF-8 bytes. The regular
    expression of the plugin works on characters, so it has to know where
    one ends and which one it is. *)

Module Utf8.

Definition code (b : ascii) : N := N_of_ascii b.

Definition between (lo hi : N) (b : ascii) : bool :=
  ((lo <=? code b) && (code b <=? hi))%N.

Definition continuation (b : ascii) : bool := between 128 191 b.

(** The first two bytes of a well-formed sequence of three bytes. *)
Definition lead3 (b0 b1 : ascii) : bool :=
  between 224 224 b0 && between 160 191 b1
  || between 225 236 b0 && continuation b1
  || between 237 237 b0 && between 128 159 b1
  || between 238 239 b0 && continuation b1.

(** The first two bytes of a well-formed sequence of four bytes. *)
Definition lead4 (b0 b1 : ascii) : bool :=
  between 240 240 b0 && between 144 191 b1
  || between 241 243 b0 && continuation b1
  || between 244 244 b0 && between 128 143 b1.

(** The number of bytes of the first character of [s], 0 when [s] is
    empty. A byte that starts no well-formed sequence, which the text of a
    Python [str] never holds, counts as a character. *)
Definition width (s : string) : nat :=
  match s with
  | String b0 (String b1 (String b2 (String b3 _))) =>
      if between 194 223 b0 && continuation b1 then 2
      else if lead3 b0 b1 && continuation b2 then 3
      else if lead4 b0 b1 && continuation b2 && continuation b3 then 4
      else 1
  | String b0 (String b1 (String b2 "")) =>
      if between 194 223 b0 && continuation b1 then 2
      else if lead3 b0 b1 && continuation b2 then 3
      else 1
  | String b0 (String b1 "") =>
      if between 194 223 b0 && continuation b1 then 2 else 1
  | String _ "" => 1
  | "" => 0
  end%nat.

(** The first character of [s] *)
Definition first (s : string) : string := PyStr.take (width s) s.

(** The code point of a character *)
Definition code_point (ch : string) : N :=
  match ch with
  | String b0 "" => code b0
  | String b0 (String b1 "") => (code b0 - 192) * 64 + (code b1 - 128)
  | String b0 (String b1 (String b2 "")) =>
      ((code b0 - 224) * 64 + (code b1 - 128)) * 64 + (code b2 - 128)
  | String b0 (String b1 (String b2 (String b3 ""))) =>
      (((code b0 - 240) * 64 + (code b1 - 128)) * 64 + (code b2 - 128)) * 64
      + (code b3 - 128)
  | _ => 0
  end%N.

(** The number of characters of the first [fuel] characters of [s]. *)
Fixpoint count (fuel : nat) (s : string) : nat :=
  match fuel, s with
  | S fuel', String _ _ => S (count fuel' (PyStr.drop (width s) s))
  | _, _ => 0
  end%nat.

(** [len(s)], in characters: a text has no more characters than bytes. *)
Definition len (s : string) : Z := Z.of_nat (count (String.length s) s).

End Utf8.

(** ** The fragment of [re] that the plugin uses *)

Module Re.

(** A set of characters: an ASCII literal, [\d], or [[^c]] for an ASCII
    [c]. *)
Inductive charset :=
| Lit (c : ascii)
| Digit
| NotLit (c : ascii).

(** One character of a set, or a greedy run [k+] of them. *)
Inductive atom :=
| One (k : charset)
| Plus (k : charset).

(** A pattern with exactly one capturing group:  before ( group ) after. *)
Record pattern := Pattern {
  before : list atom;
  group : list atom;
  after : list atom
}.

Section Matcher.

(** [\d] in a [str] pattern is any character that the Unicode database of
    the interpreter classes as a decimal digit: the test on code points. *)
Variable decimal : N → bool.

Definition in_charset (k : charset) (ch : string) : bool :=
  match k with
  | Lit a => bool_decide (ch = String a "")
  | Digit => decimal (Utf8.code_point ch)
  | NotLit a => negb (bool_decide (ch = String a ""))
  end.

(** The number of bytes of the first character of [s] when there is one
    and it is in [k]. *)
Definition first_in (k : charset) (s : string) : option nat :=
  match s with
  | "" => None
  | String _ _ =>
      if in_charset k (Utf8.first s) then Some (Utf8.width s) else None
  end.

(** The lengths, in bytes, of the prefixes of [s] made of 1, 2, ...
    characters of [k], for as long as they are of [k]. [fuel] bounds the
    number of characters. *)
Fixpoint runs (fuel : nat) (k : charset) (s : string) : list nat :=
  match fuel with
  | O => []
  | S fuel' =>
      match first_in k s with
      | Some n => n :: ((λ m, n + m)%nat <$> runs fuel' k (PyStr.drop n s))
      | None => []
      end
  end.

(** The ways an atom can match at the start of [s], as (matched, rest),
    in the order in which the backtracking matcher tries them: a greedy
    run is tried longest first. A text has no more characters than
    bytes. *)
Definition match_atom (a : atom) (s : string) : list (string * string) :=
  match a with
  | One k =>
      match first_in k s with
      | Some n => [(PyStr.take n s, PyStr.drop n s)]
      | None => []
      end
  | Plus k =>
      (λ i, (PyStr.take i s, PyStr.drop i s))
        <$> reverse (runs (String.length s) k s)
  end.

Fixpoint match_seq (l : list atom) (s : string) : list (string * string) :=
  match l with
  | [] => [("", s)]
  | a :: l' =>
      '(x, r) ← match_atom a s;
      '(y, r') ← match_seq l' r;
      [(x +:+ y, r')]
  end.

(** [re.match] at the start of [s]: the first way that succeeds, as
    (text of the group, rest of the subject after the match). *)
Definition match_here (p : pattern) (s : string) : option (string * string) :=
  head ('(_, r1) ← match_seq (before p) s;
        '(g, r2) ← match_seq (group p) r1;
        '(_, r3) ← match_seq (after p) r2;
        [(g, r3)]).

(** [re.findall] for a pattern with one group that cannot match the empty
    string: scan from the left; after a match, resume where it ended,
    otherwise at the next character. [skip] counts the bytes still to step
    over. *)
Fixpoint findall_from (p : pattern) (skip : nat) (s : string) : list string :=
  match s with
  | "" => []
  | String _ r =>
      match skip with
      | S k => findall_from p k r
      | O =>
          match match_here p s with
          | Some (g, rest) =>
              g :: findall_from p (String.length r - String.length rest) r
          | None => findall_from p (Utf8.width s - 1) r
          end
      end
  end.

Definition findall (p : pattern) (s : string) : list string :=
  findall_from p 0 s.

End Matcher.

End Re.

(** ** Exceptions *)

(** The exception classes the plugin raises, catches or lets through. All
    of them derive from [Exception]. *)
Inductive exn_class :=
| MNotFound                 (* mautrix.errors.request.MNotFound *)
| HTTPError                 (* aiohttp.web.HTTPError *)
| MeetingLogFetchingError   (* defined by the plugin *)
| KeyError
| TypeError
| AttributeError
| ValueError
| OtherError.               (* any other subclass of Exception *)

Record exn := Exn { exn_cls : exn_class; exn_str : string }.

Global Instance exn_class_eq_dec : EqDecision exn_class.
Proof. solve_decision. Defined.

(** [res A]: a value of [A], or an exception raised instead. *)
Abbreviation res A := (exn + A)%type.

(** ** [urllib.parse.urlparse(url).path]: reference model

    The plugin is verified for an arbitrary [urlparse] (see the section
    below); this model of CPython's algorithm instantiates it on concrete
    URLs. The validation of a bracketed IPv6 host and the NFKC check of the
    host, which can only reject a URL, are left out. *)

Module Url.

Definition code (c : ascii) : N := N_of_ascii c.

Definition is_c0_or_space (c : ascii) : bool := (code c <=? 32)%N.

Definition is_unsafe (c : ascii) : bool :=
  bool_decide (code c = 9%N ∨ code c = 10%N ∨ code c = 13%N).

Definition is_alpha (c : ascii) : bool :=
  (((65 <=? code c) && (code c <=? 90)) || ((97 <=? code c) && (code c <=? 122)))%N.

Definition is_scheme_char (c : ascii) : bool :=
  is_alpha c || PyStr.is_digit c
  || bool_decide (c = "+"%char ∨ c = "-"%char ∨ c = "."%char).

Definition lower (c : ascii) : ascii :=
  if ((65 <=? code c) && (code c <=? 90))%N then ascii_of_N (code c + 32) else c.

Fixpoint lstrip_c0 (s : string) : string :=
  match s with
  | String c r => if is_c0_or_space c then lstrip_c0 r else s
  | "" => ""
  end.

Fixpoint filter_out (P : ascii → bool) (s : string) : string :=
  match s with
  | String c r => if P c then filter_out P r else String c (filter_out P r)
  | "" => ""
  end.

Fixpoint map_chars (f : ascii → ascii) (s : string) : string :=
  match s with
  | String c r => String (f c) (map_chars f r)
  | "" => ""
  end.

Fixpoint all_chars (P : ascii → bool) (s : string) : bool :=
  match s with
  | String c r => P c && all_chars P r
  | "" => true
  end.

(** The part of [s] before the first character satisfying [P]. *)
Fixpoint before_first (P : ascii → bool) (s : string) : string :=
  match s with
  | String c r => if P c then "" else String c (before_first P r)
  | "" => ""
  end.

(** The part of [s] from the first character satisfying [P] on. *)
Fixpoint from_first (P : ascii → bool) (s : string) : string :=
  match s with
  | String c r => if P c then s else from_first P r
  | "" => ""
  end.

Definition is_char (a : ascii) (c : ascii) : bool := bool_decide (c = a).

(** Splits [scheme:] off: (scheme, rest). *)
Definition split_scheme (url : string) : string * string :=
  match PyStr.find ":" url, url with
  | Some (S i), String c0 _ =>
      let cand := PyStr.take (S i) url in
      if is_alpha c0 && all_chars is_scheme_char cand
      then (map_chars lower cand, PyStr.drop (S (S i)) url)
      else ("", url)
  | _, _ => ("", url)
  end.

(** Splits [//netloc] off: (netloc, rest). *)
Definition split_netloc (url : string) : string * string :=
  if PyStr.startswith url "//" then
    let r := PyStr.drop 2 url in
    let stop c := bool_decide (c = "/"%char ∨ c = "?"%char ∨ c = "#"%char) in
    (before_first stop r, from_first stop r)
  else ("", url).

Definition uses_params : list string :=
  [""; "ftp"; "hdl"; "prospero"; "http"; "imap"; "https"; "shttp"; "rtsp";
   "rtsps"; "rtspu"; "sip"; "sips"; "mms"; "sftp"; "tel"].

(** [_splitparams]: cuts [;params] off the last segment of the path. *)
Fixpoint cut_params (s : string) : string :=
  match s with
  | String c r =>
      if PyStr.contains "/" r then String c (cut_params r)
      else before_first (is_char ";") s
  | "" => ""
  end.

Definition urlparse_path (url : string) : res string :=
  let url := filter_out is_unsafe (lstrip_c0 url) in
  let '(scheme, url) := split_scheme url in
  let '(netloc, url) := split_netloc url in
  if xorb (PyStr.contains "[" netloc) (PyStr.contains "]" netloc)
  then inl (Exn ValueError "Invalid IPv6 URL")
  else
    let url := before_first (is_char "#") url in
    let url := before_first (is_char "?") url in
    inr (if bool_decide (scheme ∈ uses_params) then cut_params url else url).

End Url.

(** ** [pathlib.Path] on a POSIX host: the pure part *)

Module PurePath.

(** A parsed path: the root (["" ], ["/"] or ["//"]) and the components. *)
Record t := Build { root : string; parts : list string }.

(** [posixpath.splitroot] *)
Definition splitroot (p : string) : string * string :=
  match p with
  | String "/" (String "/" (String "/" _)) => ("/", PyStr.drop 1 p)
  | String "/" (String "/" r) => ("//", r)
  | String "/" r => ("/", r)
  | _ => ("", p)
  end.

(** [Path(p)]: empty and ["."] components are dropped. *)
Definition Path (p : string) : t :=
  let '(rt, rel) := splitroot p in
  Build rt (filter (λ x, x ≠ "" ∧ x ≠ ".") (PyStr.split "/" rel)).

(** [str(p)] *)
Definition str (p : t) : string :=
  match root p, parts p with
  | "", [] => "."
  | rt, l => rt +:+ PyStr.join "/" l
  end.

(** [posixpath.join(a, b)] *)
Definition posix_join (a b : string) : string :=
  if PyStr.startswith b "/" then b
  else if bool_decide (a = "") || PyStr.endswith a "/" then a +:+ b
  else a +:+ "/" +:+ b.

(** [p / key] *)
Definition div (p : t) (key : string) : t := Path (posix_join (str p) key).

(** [p.parent] *)
Definition parent (p : t) : t := Build (root p) (removelast (parts p)).

End PurePath.

(** ** Configuration: [mautrix.util.config] and the plugin's [Config] *)

(** A value of the YAML configuration. *)
#[warning="-register-all"]
Inductive yaml :=
| YNull
| YBool (b : bool)
| YInt (z : Z)
| YStr (s : string)
| YList (l : list yaml)
| YMap (m : gmap string yaml).

Module RecursiveDict.

(** [self[key]] for a key without a dot: [None] when the key is absent. *)
Definition getitem (data : gmap string yaml) (key : string) : yaml :=
  default YNull (data !! key).

(** [key in self]: the value is not [None]. *)
Definition contains (data : gmap string yaml) (key : string) : bool :=
  match getitem data key with
  | YNull => false
  | _ => true
  end.

(** [self[key] = value] for a key without a dot. *)
Definition setitem (data : gmap string yaml) (key : string) (value : yaml)
  : gmap string yaml :=
  <[key := value]> data.

End RecursiveDict.

(** Python's operators on configuration values. *)
Module PyVal.

Fixpoint is_substring (p s : string) : bool :=
  PyStr.startswith s p
  || match s with
     | String _ r => is_substring p r
     | "" => false
     end.

Definition yaml_is_str (k : string) (v : yaml) : bool :=
  match v with
  | YStr s => bool_decide (s = k)
  | _ => false
  end.

(** [k in v] for a string [k] *)
Definition contains (k : string) (v : yaml) : res bool :=
  match v with
  | YMap m => inr (bool_decide (is_Some (m !! k)))
  | YStr s => inr (is_substring k s)
  | YList l => inr (existsb (yaml_is_str k) l)
  | _ => inl (Exn TypeError "argument is not iterable")
  end.

(** [v[k]] for a string [k] *)
Definition subscript (v : yaml) (k : string) : res yaml :=
  match v with
  | YMap m =>
      match m !! k with
      | Some x => inr x
      | None => inl (Exn KeyError k)
      end
  | _ => inl (Exn TypeError "object is not subscriptable by a string")
  end.

(** [v[k] = x] for a string [k]: the value [v] after the assignment. *)
Definition store (v : yaml) (k : string) (x : yaml) : res yaml :=
  match v with
  | YMap m => inr (YMap (<[k := x]> m))
  | _ => inl (Exn TypeError "object does not support item assignment")
  end.

(** [v.items()] *)
Definition items (v : yaml) : res (list (string * yaml)) :=
  match v with
  | YMap m => inr (map_to_list m)
  | _ => inl (Exn AttributeError "object has no attribute 'items'")
  end.

End PyVal.

(** [ConfigUpdateHelper]: [base] is the default configuration, which the
    update turns into the new configuration; [source] is the stored one. *)
Module ConfigUpdateHelper.

Record t := Build {
  base : gmap string yaml;
  source : gmap string yaml
}.

(** [helper.copy(path)]: a list or a mapping goes through JSON and back,
    which gives an equal value. *)
Definition copy (h : t) (from_path : string) : t :=
  if RecursiveDict.contains (source h) from_path
  then Build (RecursiveDict.setitem (base h) from_path
                (RecursiveDict.getitem (source h) from_path))
             (source h)
  else h.

(** [helper.copy_dict(path)]: the target is replaced by an empty mapping,
    then filled entry by entry. *)
Definition copy_dict (h : t) (from_path : string) : res t :=
  if RecursiveDict.contains (source h) from_path then
    match PyVal.items (RecursiveDict.getitem (source h) from_path) with
    | inl e => inl e
    | inr kvs =>
        inr (Build
               (RecursiveDict.setitem (base h) from_path
                  (YMap (foldl (λ m kv, <[kv.1 := kv.2]> m) ∅ kvs)))
               (source h))
    end
  else inr h.

End ConfigUpdateHelper.

Module Config.

(** [Config.do_update(helper)], [self] being the helper's [source]. *)
Definition do_update (h : ConfigUpdateHelper.t) : res ConfigUpdateHelper.t :=
  let self := ConfigUpdateHelper.source h in
  let fill : res ConfigUpdateHelper.t :=
    if RecursiveDict.contains self "gemini" then
      match PyVal.contains "model" (RecursiveDict.getitem self "gemini") with
      | inl e => inl e
      | inr true => inr h
      | inr false =>
          match PyVal.subscript
                  (RecursiveDict.getitem (ConfigUpdateHelper.base h) "gemini")
                  "model" with
          | inl e => inl e
          | inr model =>
              match PyVal.store (RecursiveDict.getitem self "gemini")
                      "model" model with
              | inl e => inl e
              | inr g =>
                  inr (ConfigUpdateHelper.Build (ConfigUpdateHelper.base h)
                         (<["gemini" := g]> self))
              end
          end
      end
    else inr h in
  match fill with
  | inl e => inl e
  | inr h =>
      match ConfigUpdateHelper.copy_dict h "gemini" with
      | inl e => inl e
      | inr h =>
          let h := ConfigUpdateHelper.copy h "meetbot_id" in
          let h := ConfigUpdateHelper.copy h "ignored_participants" in
          inr (ConfigUpdateHelper.copy h "meetings_directory")
      end
  end.

(** [BaseConfig.update]: the configuration after the update is the
    helper's base. *)
Definition update (stored default : gmap string yaml) : res (gmap string yaml) :=
  match do_update (ConfigUpdateHelper.Build default stored) with
  | inl e => inl e
  | inr h => inr (ConfigUpdateHelper.base h)
  end.

(** The value of [gemini.model] in a configuration, if the key is there. *)
Definition gemini_model (data : gmap string yaml) : option yaml :=
  match data !! "gemini" with
  | Some (YMap g) => g !! "model"
  | _ => None
  end.

End Config.

(** ** The decimal digits of Unicode 14.0, the database of CPython 3.11

    Later versions add blocks; the plugin is verified for any database. *)

Module Unicode.

(** The first digit of each block of ten. *)
Definition ZEROS : list N :=
  [0x30; 0x660; 0x6F0; 0x7C0; 0x966; 0x9E6; 0xA66; 0xAE6; 0xB66; 0xBE6;
   0xC66; 0xCE6; 0xD66; 0xDE6; 0xE50; 0xED0; 0xF20; 0x1040; 0x1090; 0x17E0;
   0x1810; 0x1946; 0x19D0; 0x1A80; 0x1A90; 0x1B50; 0x1BB0; 0x1C40; 0x1C50;
   0xA620; 0xA8D0; 0xA900; 0xA9D0; 0xA9F0; 0xAA50; 0xABF0; 0xFF10; 0x104A0;
   0x10D30; 0x11066; 0x110F0; 0x11136; 0x111D0; 0x112F0; 0x11450; 0x114D0;
   0x11650; 0x116C0; 0x11730; 0x118E0; 0x11950; 0x11C50; 0x11D50; 0x11DA0;
   0x16A60; 0x16AC0; 0x16B50;
   0x1D7CE; 0x1D7D8; 0x1D7E2; 0x1D7EC; 0x1D7F6;
   0x1E140; 0x1E2F0; 0x1E950; 0x1FBF0]%N.

Definition is_decimal (cp : N) : bool :=
  existsb (λ zero, (zero <=? cp) && (cp <? zero + 10))%N ZEROS.

End Unicode.

(** ** Events, collaborators and effects *)

Inductive MessageType :=
| TEXT | EMOTE | NOTICE | IMAGE | STICKER | VIDEO | AUDIO | FILE | LOCATION.

Global Instance MessageType_eq_dec : EqDecision MessageType.
Proof. solve_decision. Defined.

Record MessageEvent := {
  room_id : string;
  event_id : string;
  sender : string;
  msgtype : MessageType;      (* evt.content.msgtype *)
  body : string               (* evt.content.body *)
}.

(** The values of the loaded configuration that the plugin reads. *)
Record Settings := {
  gemini_api_key : string;
  gemini_model : string;
  meetbot_id : string;
  ignored_participants : list string;
  meetings_directory : option string     (* [None]: no value *)
}.

(** A call that leaves the plugin, with its arguments. *)
Inductive call :=
| CGetStateEvent (room : string)               (* client.get_state_event(room, ROOM_CANONICAL_ALIAS) *)
| CMarkRead (event : string)                   (* evt.mark_read() *)
| CSetTyping (room : string) (timeout : Z)     (* client.set_typing(room, timeout=...) *)
| CHttpGet (url : string)                      (* http.get(url), raise_for_status(), text() *)
| CReply (event : string) (text : string)      (* evt.reply(text) *)
| CRespond (event : string) (text : string) (markdown : bool)
| CReact (room event key : string)             (* client.react(room, event, key) *)
| CGenerateContent (model data prompt : string)
| CMkdir (path : string)                       (* mkdir(parents=True, exist_ok=True) *)
| CWriteText (path content : string).

(** What the collaborators answer. A call that raises answers [inl]. *)
Record World := {
  mxid : string;                                       (* client.mxid *)
  unicode_decimal : N → bool;                          (* str.isdecimal on a character, by code point *)
  get_state_event : string → res (option string);      (* the content's canonical_alias *)
  mark_read : string → res unit;
  set_typing : string → Z → res unit;
  http_get : string → res string;
  reply : string → string → res string;                (* id of the event sent *)
  respond : string → string → bool → res string;       (* id of the event sent *)
  react : string → string → string → res unit;
  generate_content : string → string → string → res (option string);  (* response.text *)
  mkdir : string → res unit;
  write_text : string → string → res unit
}.

(** A piece of a formatted log message. *)
Inductive piece :=
| Txt (s : string)
| Num (n : Z)
| Names (l : list string).

Inductive level := LvDebug | LvInfo | LvWarning | LvException.

Inductive effect :=
| Out (c : call)
| Log (lv : level) (msg : list piece).

(** The monad of the plugin's methods: the trace of effects, and the value
    returned or the exception raised. *)
Definition M (A : Type) : Type := (list effect * res A)%type.

Global Instance M_ret : MRet M := λ A a, ([], inr a).

Global Instance M_bind : MBind M := λ A B f m,
  match m with
  | (t, inl e) => (t, inl e)
  | (t, inr a) => let '(t', r) := f a in (t ++ t', r)
  end.

Definition raise {A} (e : exn) : M A := ([], inl e).

Definition lift {A} (r : res A) : M A := ([], r).

Definition out {A} (c : call) (answer : res A) : M A := ([Out c], answer).

Definition log (lv : level) (msg : list piece) : M unit := ([Log lv msg], inr tt).

(** [try: m  except ...]: [h e] is the body of the clause that catches [e],
    [None] when no clause does. *)
Definition try_except {A} (m : M A) (h : exn → option (M A)) : M A :=
  match m with
  | (t, inl e) =>
      match h e with
      | Some (t', r) => (t ++ t', r)
      | None => m
      end
  | _ => m
  end.

(** The calls of a trace, in order. *)
Definition outbound (t : list effect) : list call :=
  omap (λ e, match e with Out c => Some c | Log _ _ => None end) t.

(** The log records of a trace, in order. *)
Definition logged (t : list effect) : list (level * list piece) :=
  omap (λ e, match e with Log lv m => Some (lv, m) | Out _ => None end) t.

(** [set.remove(x)] *)
Definition set_remove (x : string) (s : gset string) : res (gset string) :=
  if decide (x ∈ s) then inr (s ∖ {[x]}) else inl (Exn KeyError x).

(** [with suppress(c): s = op(s)]: when [op] raises [c], [s] stays. *)
Definition suppress {A} (c : exn_class) (s : A) (r : res A) : res A :=
  match r with
  | inl e => if decide (exn_cls e = c) then inr s else inl e
  | inr _ => r
  end.

(** [sorted(s)] on a set of strings *)
Definition sorted (s : gset string) : list string :=
  merge_sort String.le (elements s).

(** ** The plugin *)

Definition nl : string := String "010"%char "".

Definition MEETBOT_PREFIX : string := "Text Log: ".

Definition LLM_PROMPT : string :=
  nl +:+ "    Give me the key discussion points and action items in this document as a bullet list."
  +:+ nl +:+ "    Do not add an introduction to your response."
  +:+ nl +:+ "    Use markdown formatting." +:+ nl.

(** [RESPONSE_TEMPLATE.format(members=..., summary=...)] *)
Definition RESPONSE_TEMPLATE (members summary : string) : string :=
  "Hello " +:+ members +:+ ". Here's a short summary of the meeting:" +:+ nl
  +:+ nl +:+ "---" +:+ nl +:+ summary +:+ nl +:+ "---" +:+ nl +:+ nl
  +:+ "Does it look correct to you? If so, please click on ✅, otherwise please click on ❌."
  +:+ nl +:+ nl
  +:+ "(" +:+ "*this bot feature is in alpha stage, thanks for your patience*" +:+ ")"
  +:+ nl.

Definition UNVALIDATED_NOTE : string :=
  "*Note: This summary has not been validated by the attendants.*" +:+ nl +:+ nl.

(** [r"\d{4}-\d\d-\d\d \d\d:\d\d:\d\d <(@[^>]+)> "] *)
Definition USERNAME_PATTERN : Re.pattern :=
  let d := Re.One Re.Digit in
  let c x := Re.One (Re.Lit x) in
  Re.Pattern
    ([d; d; d; d; c "-"; d; d; c "-"; d; d; c " ";
      d; d; c ":"; d; d; c ":"; d; d; c " "; c "<"])%char
    [c "@"; Re.Plus (Re.NotLit ">")]%char
    [c ">"; c " "]%char.

(** [x or y] on an optional string: [x] unless it is [None] or empty. *)
Definition str_or (x : option string) (y : string) : string :=
  match x with
  | Some (String c r) => String c r
  | _ => y
  end.

(** [not x] on an optional string *)
Definition falsy (x : option string) : bool :=
  match x with
  | Some (String _ _) => false
  | _ => true
  end.

Module MeetingSummary.
Section Plugin.

Variable config : Settings.
Variable w : World.
(** [urlparse(url).path], which raises [ValueError] on some inputs. *)
Variable urlparse_path : string → res string.

Definition _get_room_alias (room : string) : M (option string) :=
try_except
  (out (CGetStateEvent room) (get_state_event w room))
  (λ e, if decide (exn_cls e = MNotFound)
        then Some (log LvWarning [Txt "No room alias for "; Txt room];;
                   mret None)
        else None).

Definition get_meeting_log (evt : MessageEvent) (url : string) : M string :=
log LvDebug [Txt "Processing meeting log from URL: "; Txt url;
             Txt " in room "; Txt (room_id evt)];;
doc_data ← try_except
  (out (CHttpGet url) (http_get w url))
  (λ e, if decide (exn_cls e = HTTPError)
        then Some (log LvException [Txt "Failed to fetch meeting log from ";
                                    Txt url; Txt ": "; Txt (exn_str e)];;
                   raise (Exn MeetingLogFetchingError
                            ("❌ Failed to fetch meeting log: " +:+ exn_str e)))
        else Some (log LvException [Txt "Unexpected error processing meeting log: ";
                                    Txt (exn_str e)];;
                   raise (Exn MeetingLogFetchingError
                            ("❌ Error processing meeting log: " +:+ exn_str e))));
log LvDebug [Txt "Successfully fetched meeting log content (";
             Num (Utf8.len doc_data); Txt " characters)"];;
mret doc_data.

(** The loop [for ignored_id in ignored_ids: with suppress(KeyError): ...] *)
Fixpoint remove_ignored (ignored_ids : list string) (usernames : gset string)
: res (gset string) :=
match ignored_ids with
| [] => inr usernames
| ignored_id :: rest =>
    match suppress KeyError usernames (set_remove ignored_id usernames) with
    | inl e => inl e
    | inr usernames => remove_ignored rest usernames
    end
end.

Definition extract_usernames (meeting_log : string) : M (list string) :=
let matches := Re.findall (unicode_decimal w) USERNAME_PATTERN meeting_log in
let usernames : gset string := list_to_set matches in
let ignored_ids := [mxid w; meetbot_id config] ++ ignored_participants config in
usernames ← lift (remove_ignored ignored_ids usernames);
let result := sorted usernames in
log LvInfo [Txt "Found "; Num (Z.of_nat (length result));
            Txt " unique participants: "; Names result];;
mret result.

Definition get_summary (meeting_log : string) : M (option string) :=
out (CGenerateContent (gemini_model config) meeting_log LLM_PROMPT)
    (generate_content w (gemini_model config) meeting_log LLM_PROMPT).

Definition _save_summary_to_file (summary path : string) (validated : bool)
: M unit :=
if falsy (meetings_directory config) then mret tt
else
  let summary := if negb validated then UNVALIDATED_NOTE +:+ summary else summary in
  let meetings_dir := PurePath.Path (default "" (meetings_directory config)) in
  let file_path := PurePath.div meetings_dir path in
  out (CMkdir (PurePath.str (PurePath.parent file_path)))
      (mkdir w (PurePath.str (PurePath.parent file_path)));;
  out (CWriteText (PurePath.str file_path) summary)
      (write_text w (PurePath.str file_path) summary);;
  log LvInfo [Txt "Saved summary to "; Txt (PurePath.str file_path)].

(** The value of [summary_path] after the second assignment. *)
Definition summary_path_suffixed (url_path : string) : string :=
PyStr.slice url_path None (Some (- PyStr.len ".log.txt")) +:+ ".summary.md".

(** The value of [summary_path] passed to [_save_summary_to_file]. *)
Definition summary_path_of (url_path : string) : string :=
PyStr.lstrip "/" (summary_path_suffixed url_path).

Definition post_summary (evt : MessageEvent) (summary : option string)
  (usernames : list string) (url : string) : M unit :=
match summary with
| None =>
    log LvWarning [Txt "Could not generate summary for meeting in room ";
                   Txt (room_id evt)]
| Some summary =>
    log LvInfo [Txt "Sending summary to "; Num (Z.of_nat (length usernames));
                Txt " participants in room "; Txt (room_id evt)];;
    let text := RESPONSE_TEMPLATE (PyStr.join ", " usernames) summary in
    response_event_id ← out (CRespond (event_id evt) text true)
                            (respond w (event_id evt) text true);
    out (CReact (room_id evt) response_event_id "✅")
        (react w (room_id evt) response_event_id "✅");;
    out (CReact (room_id evt) response_event_id "❌")
        (react w (room_id evt) response_event_id "❌");;
    summary_path ← lift (urlparse_path url);
    _save_summary_to_file summary (summary_path_of summary_path) false
end.

Definition handle_meeting_log (evt : MessageEvent) (url : string) : M unit :=
out (CSetTyping (room_id evt) 30000) (set_typing w (room_id evt) 30000);;
fetched ← try_except
  (meeting_log ← get_meeting_log evt url; mret (Some meeting_log))
  (λ e, if decide (exn_cls e = MeetingLogFetchingError)
        then Some (out (CReply (event_id evt) (exn_str e))
                       (reply w (event_id evt) (exn_str e));;
                   mret None)
        else None);
match fetched with
| None => mret tt                                  (* the [return] of the clause *)
| Some meeting_log =>
    usernames ← extract_usernames meeting_log;
    summary ← get_summary meeting_log;
    post_summary evt summary usernames url;;
    out (CSetTyping (room_id evt) 0) (set_typing w (room_id evt) 0)
end.

Definition on_message (evt : MessageEvent) : M unit :=
room_alias ← _get_room_alias (room_id evt);
if decide (msgtype evt ≠ NOTICE) then mret tt
else if decide (sender evt ≠ meetbot_id config) then
  log LvDebug [Txt "Ignoring message from "; Txt (sender evt); Txt " in ";
               Txt (str_or room_alias (room_id evt));
               Txt ", I'm only listening to "; Txt (meetbot_id config)]
else
  out (CMarkRead (event_id evt)) (mark_read w (event_id evt));;
  let message_body := body evt in
  if negb (PyStr.startswith message_body MEETBOT_PREFIX) then
    log LvDebug [Txt "Ignoring message from meetbot: "; Txt message_body]
  else
    let url := PyStr.slice message_body (Some (PyStr.len MEETBOT_PREFIX)) None in
    let room_name := str_or room_alias (room_id evt) in
    let room_name :=
      if decide (room_name ≠ room_id evt)
      then room_name +:+ " (" +:+ room_id evt +:+ ")"
      else room_name in
    log LvInfo [Txt "Detected Text Log message from meetbot in "; Txt room_name;
                Txt " with URL: "; Txt url];;
    handle_meeting_log evt url.

End Plugin.
End MeetingSummary.

Import MeetingSummary.

(** ** The specification's vocabulary *)

(** The admission condition of the event filter. *)
Definition admits (config : Settings) (evt : MessageEvent) : Prop :=
  msgtype evt = NOTICE
  ∧ sender evt = meetbot_id config
  ∧ PyStr.startswith (body evt) MEETBOT_PREFIX = true.



(** A call to the file system. *)
Definition is_fs_call (c : call) : bool :=
  match c with
  | CMkdir _ | CWriteText _ _ => true
  | _ => false
  end.

(** The alias lookup answers, or fails with [MNotFound], which the plugin
    catches. *)
Definition alias_lookup_ok (w : World) (room : string) : bool :=
  match get_state_event w room with
  | inr _ => true
  | inl e => bool_decide (exn_cls e = MNotFound)
  end.

(** The URL that [on_message] takes from the body of an announcement. *)
Definition transcript_url (evt : MessageEvent) : string :=
  PyStr.slice (body evt) (Some (PyStr.len MEETBOT_PREFIX)) None.

(** The identities of a transcript: those found, less the ignored ones,
    sorted. *)
Definition participants (config : Settings) (w : World) (meeting_log : string)
  : list string :=
  sorted (list_to_set (Re.findall (unicode_decimal w) USERNAME_PATTERN meeting_log)
          ∖ list_to_set ([mxid w; meetbot_id config] ++ ignored_participants config)).

Global Instance call_eq_dec : EqDecision call.
Proof. solve_decision. Defined.

(** The stored [gemini] section, when there is one, is a mapping. *)
Definition gemini_well_formed (stored : gmap string yaml) : Prop :=
  match stored !! "gemini" with
  | None | Some YNull | Some (YMap _) => True
  | _ => False
  end.

(** [s] begins with the given shape, [rest] following: a decimal digit
    (one character) wherever the shape has [d], and the shape's own ASCII
    character everywhere else. *)
Fixpoint fits (decimal : N → bool) (shape s rest : string) : Prop :=
  match shape with
  | "" => rest = s
  | String f shape' =>
      if decide (f = "d"%char)
      then s ≠ "" ∧ decimal (Utf8.code_point (Utf8.first s)) = true
           ∧ fits decimal shape' (PyStr.drop (Utf8.width s) s) rest
      else ∃ s', s = String f s' ∧ fits decimal shape' s' rest
  end.

(** [s] starts with a speaker line of [identity]: a timestamp
    [YYYY-MM-DD HH:MM:SS], a space, and the identity, an [@] and at least
    one character other than [>], between [<] and [> ]. *)
Definition speaker_line (decimal : N → bool) (s identity rest : string) : Prop :=
  ∃ tail name,
    fits decimal "dddd-dd-dd dd:dd:dd <" s tail
    ∧ name ≠ "" ∧ PyStr.contains ">" name = false
    ∧ identity = "@" +:+ name
    ∧ tail = identity +:+ "> " +:+ rest.

(** The identities of the speaker lines of a text, read from left to right,
    each line starting after the end of the one before, and at a
    character. *)
Inductive speakers (decimal : N → bool) : string → list string → Prop :=
| speakers_end : speakers decimal "" []
| speakers_hit s identity rest l :
    speaker_line decimal s identity rest → speakers decimal rest l →
    speakers decimal s (identity :: l)
| speakers_skip s l :
    s ≠ "" →
    (∀ identity rest, ¬ speaker_line decimal s identity rest) →
    speakers decimal (PyStr.drop (Utf8.width s) s) l →
    speakers decimal s l.

(** The character sets of a shape. *)
Definition shape_atoms (shape : string) : list Re.atom :=
  (λ f, Re.One (if decide (f = "d"%char) then Re.Digit else Re.Lit f))
    <$> list_ascii_of_string shape.

(** Every call of the computation satisfies [P]. *)
Definition calls_only {A} (P : call → Prop) (m : M A) : Prop :=
  Forall P (outbound m.1).

(** The computation returns a value: it does not raise. *)
Definition returns {A} (m : M A) : Prop := ∃ a, m.2 = inr a.

(** Every call to the Matrix client, the AI backend and the file system
    answers. The HTTP session is free to fail. *)
Record cooperative (w : World) : Prop := {
  coop_alias : ∀ room, alias_lookup_ok w room = true;
  coop_read : ∀ e, mark_read w e = inr tt;
  coop_typing : ∀ room t, set_typing w room t = inr tt;
  coop_reply : ∀ e text, ∃ sent, reply w e text = inr sent;
  coop_respond : ∀ e text md, ∃ sent, respond w e text md = inr sent;
  coop_react : ∀ room e key, react w room e key = inr tt;
  coop_ai : ∀ model data prompt, ∃ text, generate_content w model data prompt = inr text;
  coop_mkdir : ∀ path, mkdir w path = inr tt;
  coop_write : ∀ path content, write_text w path content = inr tt
}.

(** The same collaborators, with another answer to the alias lookup. *)
Definition with_alias (w : World) (lookup : string → res (option string)) : World := {|
  mxid := mxid w;
  unicode_decimal := unicode_decimal w;
  get_state_event := lookup;
  mark_read := mark_read w;
  set_typing := set_typing w;
  http_get := http_get w;
  reply := reply w;
  respond := respond w;
  react := react w;
  generate_content := generate_content w;
  mkdir := mkdir w;
  write_text := write_text w
|}.

(** A call addressed to the room and the event that triggered the handler. *)
Definition addressed_to (evt : MessageEvent) (c : call) : Prop :=
  match c with
  | CGetStateEvent room => room = room_id evt
  | CMarkRead e => e = event_id evt
  | CSetTyping room t => room = room_id evt ∧ (t = 30000 ∨ t = 0)
  | CReply e _ => e = event_id evt
  | CRespond e _ md => e = event_id evt ∧ md = true
  | CReact room _ key => room = room_id evt ∧ (key = "✅" ∨ key = "❌")
  | _ => True
  end.

(** The keys that [do_update] copies with [helper.copy]. *)
Definition COPIED_KEYS : list string :=
  ["meetbot_id"; "ignored_participants"; "meetings_directory"].

(** ** A concrete deployment, to run the model on *)

Module Demo.

Definition config : Settings := {|
  gemini_api_key := "secret";
  gemini_model := "gemini-2.5-flash";
  meetbot_id := "@meetbot:fedora.im";
  ignored_participants := ["@zodbot:fedora.im"];
  meetings_directory := Some "/data/minutes"
|}.

Definition transcript : string :=
  "2025-09-25 08:26:00 <@alice:server.tld> hi" +:+ nl
  +:+ "2025-09-25 08:27:00 <@bob:server.tld> hello" +:+ nl
  +:+ "2025-09-25 08:28:00 <@alice:server.tld> any news?" +:+ nl
  +:+ "2025-09-25 08:29:00 <@zodbot:fedora.im> Meeting ended" +:+ nl.

(** Every collaborator answers; the fetch and the AI backend answer as given. *)
Definition world (fetched : res string) (summary : res (option string)) : World := {|
  mxid := "@summary:fedora.im";
  unicode_decimal := Unicode.is_decimal;
  get_state_event := λ _, inr (Some "#meeting:fedora.im");
  mark_read := λ _, inr tt;
  set_typing := λ _ _, inr tt;
  http_get := λ _, fetched;
  reply := λ _ _, inr "$reply";
  respond := λ _ _ _, inr "$summary";
  react := λ _ _ _, inr tt;
  generate_content := λ _ _ _, summary;
  mkdir := λ _, inr tt;
  write_text := λ _ _, inr tt
|}.

(** The same deployment with archiving switched off. *)
Definition config_no_archive : Settings := {|
  gemini_api_key := "secret";
  gemini_model := "gemini-2.5-flash";
  meetbot_id := "@meetbot:fedora.im";
  ignored_participants := ["@zodbot:fedora.im"];
  meetings_directory := None
|}.

Definition url : string := "https://example.org/meetings/2025-09-25.log.txt".

Definition announcement : MessageEvent := {|
  room_id := "!room:fedora.im";
  event_id := "$announcement";
  sender := "@meetbot:fedora.im";
  msgtype := NOTICE;
  body := "Text Log: https://example.org/meetings/2025-09-25.log.txt"
|}.

(** A notice of the meeting bot that announces no text log. *)
Definition other_notice : MessageEvent := {|
  room_id := "!room:fedora.im";
  event_id := "$ended";
  sender := "@meetbot:fedora.im";
  msgtype := NOTICE;
  body := "Meeting ended at 2025-09-25 09:00:00 UTC"
|}.

(** An ordinary message of a participant. *)
Definition chat : MessageEvent := {|
  room_id := "!room:fedora.im";
  event_id := "$chat";
  sender := "@alice:server.tld";
  msgtype := TEXT;
  body := "hello"
|}.

(** The default configuration shipped with the plugin, and a stored one
    written before [gemini.model] existed. *)
Definition base_config : gmap string yaml :=
  {[ "gemini" := YMap {[ "api_key" := YStr ""; "model" := YStr "gemini-2.5-flash" ]};
     "meetbot_id" := YStr "@meetbot:fedora.im";
     "ignored_participants" := YList [];
     "meetings_directory" := YNull ]}.

Definition stored_config : gmap string yaml :=
  {[ "gemini" := YMap {[ "api_key" := YStr "secret" ]};
     "meetbot_id" := YStr "@meetbot:fedora.im" ]}.

(** A default configuration whose [gemini] section has no model. *)
Definition base_without_model : gmap string yaml :=
  {[ "gemini" := YMap {[ "api_key" := YStr "" ]} ]}.

(** A stored configuration that names its model. *)
Definition stored_with_model : gmap string yaml :=
  {[ "gemini" := YMap {[ "api_key" := YStr "secret"; "model" := YStr "gemini-2.0-pro" ]};
     "unknown_option" := YBool true ]}.

(** An announcement whose URL [urlparse] rejects. *)
Definition bad_announcement : MessageEvent := {|
  room_id := "!room:fedora.im";
  event_id := "$bad";
  sender := "@meetbot:fedora.im";
  msgtype := NOTICE;
  body := "Text Log: http://[meetbot/2025-09-25.log.txt"
|}.

Definition quota_exceeded : exn := Exn OtherError "429 RESOURCE_EXHAUSTED".

Definition not_found : exn := Exn OtherError "404, message='Not Found'".

End Demo.

(** * Properties *)

(** ** Strings *)

Lemma app_cons (c : ascii) (a b : string) :
  String c a +:+ b = String c (a +:+ b).
Proof. reflexivity. Qed.

Lemma app_nil_l (b : string) : "" +:+ b = b.
Proof. reflexivity. Qed.

Lemma take_app_length (a b : string) :
  PyStr.take (String.length a) (a +:+ b) = a.
Proof.
  induction a as [|c a IH]; rewrite ?app_nil_l, ?app_cons; simpl.
  - by destruct b.
  - by rewrite IH.
Qed.

Lemma drop_app_length (a b : string) :
  PyStr.drop (String.length a) (a +:+ b) = b.
Proof. induction a as [|c a IH]; rewrite ?app_nil_l, ?app_cons; simpl; auto. Qed.

Lemma take_drop (n : nat) (s : string) :
  PyStr.take n s +:+ PyStr.drop n s = s.
Proof.
  revert s; induction n as [|n IH]; intros [|c s]; simpl; auto.
  rewrite app_cons. f_equal. apply IH.
Qed.

Lemma take_all (n : nat) (s : string) :
  (String.length s ≤ n)%nat → PyStr.take n s = s.
Proof.
  revert s; induction n as [|n IH]; intros [|c s]; simpl; auto; try lia.
  intros ?; rewrite IH; auto; lia.
Qed.

Lemma length_take (n : nat) (s : string) :
  String.length (PyStr.take n s) = Nat.min n (String.length s).
Proof. revert s; induction n as [|n IH]; intros [|c s]; simpl; auto. Qed.

Lemma length_drop (n : nat) (s : string) :
  String.length (PyStr.drop n s) = (String.length s - n)%nat.
Proof. revert s; induction n as [|n IH]; intros [|c s]; simpl; auto. Qed.

Lemma length_app (a b : string) :
  String.length (a +:+ b) = (String.length a + String.length b)%nat.
Proof. induction a; rewrite ?app_nil_l, ?app_cons; simpl; auto. Qed.

Lemma app_assoc_str (a b c : string) : (a +:+ b) +:+ c = a +:+ (b +:+ c).
Proof. induction a; rewrite ?app_nil_l, ?app_cons; congruence. Qed.

Lemma app_empty_r (a : string) : a +:+ "" = a.
Proof. induction a; rewrite ?app_nil_l, ?app_cons; congruence. Qed.

Lemma startswith_app (s p : string) :
  PyStr.startswith s p = true ↔ ∃ r, s = p +:+ r.
Proof.
  revert s; induction p as [|a p IH]; intros s; simpl.
  - split; eauto.
  - destruct s as [|b s].
    + split; [done | intros [r Hr]; discriminate].
    + destruct (decide (a = b)) as [->|Hne].
      * rewrite IH. split; intros [r Hr]; exists r; rewrite ?app_cons in *; congruence.
      * split; [done | intros [r Hr]; rewrite app_cons in Hr; congruence].
Qed.

(** [s[n:]] drops [n] characters. *)
Lemma slice_from (s : string) (n : nat) :
  PyStr.slice s (Some (Z.of_nat n)) None = PyStr.drop n s.
Proof.
  unfold PyStr.slice, PyStr.clamp, PyStr.len; simpl.
  destruct (Z.ltb_spec (Z.of_nat n) 0); [lia|].
  destruct (Nat.le_gt_cases n (String.length s)).
  - rewrite Z.min_r by lia. rewrite Nat2Z.id.
    apply take_all. rewrite length_drop. lia.
  - rewrite Z.min_l by lia. rewrite Nat2Z.id.
    replace (Z.to_nat _) with 0%nat by lia.
    clear -H0. revert s H0. induction n; intros [|c s]; simpl; auto; try lia.
    intros. apply IHn. lia.
Qed.


Lemma lstrip_app_stop (c : ascii) (a b : string) (x : ascii) :
  x ≠ c → PyStr.lstrip c (a +:+ String x b) = PyStr.lstrip c a +:+ String x b.
Proof.
  intros Hx. induction a as [|y a IH]; rewrite ?app_nil_l, ?app_cons; simpl.
  - by destruct (decide (x = c)).
  - by destruct (decide (y = c)).
Qed.

(** ** Traces *)

Lemma outbound_app (t t' : list effect) :
  outbound (t ++ t') = outbound t ++ outbound t'.
Proof. apply omap_app. Qed.

Lemma calls_only_ret {A} P (a : A) : calls_only P (mret a).
Proof. constructor. Qed.

Lemma calls_only_lift {A} P (r : res A) : calls_only P (lift r).
Proof. constructor. Qed.

Lemma calls_only_raise {A} P e : calls_only P (@raise A e).
Proof. constructor. Qed.

Lemma calls_only_log P lv msg : calls_only P (log lv msg).
Proof. constructor. Qed.

Lemma calls_only_out {A} (P : call → Prop) c (r : res A) :
  P c → calls_only P (out c r).
Proof. intros; repeat constructor; auto. Qed.

Lemma calls_only_bind {A B} P (m : M A) (f : A → M B) :
  calls_only P m → (∀ a, m.2 = inr a → calls_only P (f a)) →
  calls_only P (m ≫= f).
Proof.
  unfold calls_only. destruct m as [t [e|a]]; simpl; auto.
  intros Ht Hf. specialize (Hf a eq_refl). destruct (f a) as [t' r]; simpl in *.
  rewrite outbound_app. by apply Forall_app.
Qed.

Lemma calls_only_try {A} P (m : M A) h :
  calls_only P m →
  (∀ e k, m.2 = inl e → h e = Some k → calls_only P k) →
  calls_only P (try_except m h).
Proof.
  unfold calls_only. destruct m as [t [e|a]]; simpl; auto.
  intros Ht Hh. destruct (h e) as [[t' r]|] eqn:He; simpl; auto.
  specialize (Hh e _ eq_refl He). simpl in Hh.
  rewrite outbound_app. by apply Forall_app.
Qed.

Ltac calls :=
  repeat first
    [ apply calls_only_ret | apply calls_only_lift | apply calls_only_raise
    | apply calls_only_log
    | apply calls_only_bind; [|intros ? ?]
    | apply calls_only_try; [|intros ? ? ? ?]
    | progress case_match
    | progress simplify_eq ].

(** ** The archive *)

Section Archive.
Variable config : Settings.
Variable w : World.
Variable urlparse_path : string → res string.

Lemma falsy_unset d : falsy d = true ↔ d = None ∨ d = Some "".
Proof. destruct d as [[|a s]|]; simpl; intuition congruence. Qed.

Lemma get_room_alias_calls P room :
  P (CGetStateEvent room) → calls_only P (_get_room_alias w room).
Proof.
  intros. unfold _get_room_alias.
  calls; try by apply calls_only_out.
Qed.

Lemma get_meeting_log_calls P evt url :
  P (CHttpGet url) → calls_only P (get_meeting_log w evt url).
Proof.
  intros. unfold get_meeting_log.
  calls; try by apply calls_only_out.
Qed.

Lemma extract_usernames_calls P log : calls_only P (extract_usernames config w log).
Proof. unfold extract_usernames. calls. Qed.

Lemma get_summary_calls P log :
  P (CGenerateContent (gemini_model config) log LLM_PROMPT) →
  calls_only P (get_summary config w log).
Proof. intros. by apply calls_only_out. Qed.

(** C8: when [meetings_directory] is unset or empty, saving a summary does
    nothing and returns normally, and no run of the handler touches the file
    system. *)
Theorem archiving_disabled summary path validated :
  meetings_directory config = None ∨ meetings_directory config = Some "" →
  _save_summary_to_file config w summary path validated = mret tt
  ∧ ∀ evt, calls_only (λ c, is_fs_call c = false)
             (on_message config w urlparse_path evt).
Proof.
  intros Hd%falsy_unset.
  assert (Hs : ∀ s p v, _save_summary_to_file config w s p v = mret tt).
  { intros. unfold _save_summary_to_file. by rewrite Hd. }
  split; [apply Hs|]. intros evt.
  unfold on_message, handle_meeting_log, post_summary.
  calls; rewrite ?Hs; calls;
    try (apply calls_only_out; done);
    try (apply get_room_alias_calls; done);
    try (apply get_meeting_log_calls; done);
    try (apply extract_usernames_calls; done);
    try (apply get_summary_calls; done).
Qed.





End Archive.

Lemma archiving_disabled_witness :
  _save_summary_to_file Demo.config_no_archive
    (Demo.world (inr Demo.transcript) (inr (Some "- done")))
    "- done" "meetings/2025-09-25.summary.md" false = mret tt
  ∧ ∀ evt, calls_only (λ c, is_fs_call c = false)
             (on_message Demo.config_no_archive
                (Demo.world (inr Demo.transcript) (inr (Some "- done")))
                Url.urlparse_path evt).
Proof.
  apply (archiving_disabled Demo.config_no_archive). left. reflexivity.
Defined.


(** A path that does not end in [.log.txt] loses its last 8 characters all
    the same. *)
Example summary_path_without_suffix :
  summary_path_of "/meetings/2025-09-25.html" = "meetings/2025-09.summary.md".
Proof. reflexivity. Qed.


(** ** The event handler *)

Section Handler.
Variable config : Settings.
Variable w : World.
Variable urlparse_path : string → res string.

Lemma admits_dec evt : Decision (admits config evt).
Proof. unfold admits. apply _. Defined.

(** C1, as amended: an event that the filter does not admit causes the alias
    lookup, made before any test, and, for a notice of the meeting bot when
    the lookup did not fail, the read marker; no other call. *)
Theorem rejected_event_calls evt :
  ¬ admits config evt →
  outbound (on_message config w urlparse_path evt).1
  = CGetStateEvent (room_id evt)
    :: (if bool_decide (msgtype evt = NOTICE ∧ sender evt = meetbot_id config)
           && alias_lookup_ok w (room_id evt)
        then [CMarkRead (event_id evt)] else []).
Proof.
  intros Hn. unfold admits in Hn.
  unfold on_message, _get_room_alias, alias_lookup_ok, try_except, out.
  unfold mbind, M_bind, mret, M_ret, log.
  destruct (PyStr.startswith (body evt) MEETBOT_PREFIX) eqn:Hp;
  repeat (case_decide || case_bool_decide || case_match || simplify_eq/=);
    try done; try tauto.
Qed.

Lemma remove_ignored_diff (ids : list string) (us : gset string) :
  remove_ignored ids us = inr (us ∖ list_to_set ids).
Proof.
  revert us; induction ids as [|x ids IH]; intros us; simpl.
  - f_equal. set_solver.
  - unfold set_remove. destruct (decide (x ∈ us)); simpl; rewrite IH; f_equal; set_solver.
Qed.

Lemma extract_usernames_run (meeting_log : string) :
  extract_usernames config w meeting_log
  = ([Log LvInfo [Txt "Found ";
                  Num (Z.of_nat (length (participants config w meeting_log)));
                  Txt " unique participants: ";
                  Names (participants config w meeting_log)]],
     inr (participants config w meeting_log)).
Proof.
  unfold extract_usernames, participants. rewrite remove_ignored_diff. reflexivity.
Qed.

(** An admitted event, when the alias lookup and the read marker go
    through, is handed to [handle_meeting_log] with the rest of its body. *)
Lemma on_message_admitted evt :
  admits config evt →
  alias_lookup_ok w (room_id evt) = true →
  mark_read w (event_id evt) = inr tt →
  let h := handle_meeting_log config w urlparse_path evt (transcript_url evt) in
  let m := on_message config w urlparse_path evt in
  outbound m.1 = CGetStateEvent (room_id evt) :: CMarkRead (event_id evt) :: outbound h.1
  ∧ m.2 = h.2
  ∧ ∃ pre, logged m.1 = pre ++ logged h.1.
Proof.
  intros (Hm & Hs & Hp) Hlook Hread. cbv zeta.
  unfold on_message. fold (transcript_url evt).
  generalize (handle_meeting_log config w urlparse_path evt (transcript_url evt)).
  intros [t r].
  unfold _get_room_alias, try_except, out.
  unfold alias_lookup_ok in Hlook.
  rewrite Hp, Hread.
  unfold mbind, M_bind, mret, M_ret, log.
  repeat (case_decide || case_bool_decide || case_match || simplify_eq/=);
    try done; (split; [done|split; [done|]]).
  all: first [ by exists [] | by eexists [_] | by eexists [_; _] ].
Qed.

(** C4: when the transcript fetch of an admitted event raises, the handler
    replies once to the event with the failure glyph, a fixed phrase and the
    error text, and makes no call after that: no summary request, no summary
    reply, no archive write. *)
Theorem fetch_failure_replies_once evt e :
  admits config evt →
  alias_lookup_ok w (room_id evt) = true →
  mark_read w (event_id evt) = inr tt →
  set_typing w (room_id evt) 30000 = inr tt →
  http_get w (transcript_url evt) = inl e →
  ∃ text,
    outbound (on_message config w urlparse_path evt).1
    = [CGetStateEvent (room_id evt); CMarkRead (event_id evt);
       CSetTyping (room_id evt) 30000; CHttpGet (transcript_url evt);
       CReply (event_id evt) text]
    ∧ (text = "❌ Failed to fetch meeting log: " +:+ exn_str e
       ∨ text = "❌ Error processing meeting log: " +:+ exn_str e).
Proof.
  intros Hadm Hlook Hread Htyping Hget.
  assert (Hh : ∃ text,
    outbound (handle_meeting_log config w urlparse_path evt (transcript_url evt)).1
    = [CSetTyping (room_id evt) 30000; CHttpGet (transcript_url evt);
       CReply (event_id evt) text]
    ∧ (text = "❌ Failed to fetch meeting log: " +:+ exn_str e
       ∨ text = "❌ Error processing meeting log: " +:+ exn_str e)).
  { unfold handle_meeting_log, get_meeting_log, try_except, out.
    rewrite Htyping, Hget.
    unfold mbind, M_bind, mret, M_ret, log, raise.
    destruct (decide (exn_cls e = HTTPError)); simpl;
      destruct (reply w _ _); simpl; eauto. }
  destruct Hh as (text & Ht & Htext). exists text. split; [|done].
  destruct (on_message_admitted evt Hadm Hlook Hread) as (-> & _ & _).
  by rewrite Ht.
Qed.

Lemma handle_meeting_log_starts evt url :
  ∃ rest,
    outbound (handle_meeting_log config w urlparse_path evt url).1
    = CSetTyping (room_id evt) 30000 :: rest
    ∧ (set_typing w (room_id evt) 30000 = inr tt →
       ∃ rest', rest = CHttpGet url :: rest').
Proof.
  unfold handle_meeting_log, get_meeting_log, try_except, out.
  unfold mbind, M_bind, mret, M_ret, log, raise.
  repeat (case_decide || case_match || simplify_eq/=);
    rewrite ?outbound_app; simpl; eexists; (split; [reflexivity|]);
    intros; simplify_eq; eauto.
Qed.

Lemma handle_meeting_log_fetches_once evt url :
  calls_only (λ c, ∀ u, c = CHttpGet u → u = url)
    (handle_meeting_log config w urlparse_path evt url).
Proof.
  unfold handle_meeting_log, post_summary, _save_summary_to_file.
  calls;
    try (apply calls_only_out; intros; simplify_eq; done);
    try (apply get_meeting_log_calls; intros; simplify_eq; done);
    try (apply extract_usernames_calls; done);
    try (apply get_summary_calls; done).
Qed.

Lemma transcript_url_drop evt :
  transcript_url evt = PyStr.drop 10 (body evt).
Proof. unfold transcript_url. apply (slice_from _ 10). Qed.

(** C6: when the alias lookup and the read marker go through, processing
    starts exactly for a notice of the configured meeting bot whose body
    begins with [Text Log: ], and the URL fetched is the body without that
    prefix. *)
Theorem admission_iff evt :
  alias_lookup_ok w (room_id evt) = true →
  mark_read w (event_id evt) = inr tt →
  let calls := outbound (on_message config w urlparse_path evt).1 in
  (CSetTyping (room_id evt) 30000 ∈ calls ↔ admits config evt)
  ∧ (set_typing w (room_id evt) 30000 = inr tt →
     ∀ url, CHttpGet url ∈ calls
            ↔ msgtype evt = NOTICE ∧ sender evt = meetbot_id config
              ∧ body evt = MEETBOT_PREFIX +:+ url).
Proof.
  intros Hlook Hread. cbv zeta.
  destruct (admits_dec evt) as [Hadm|Hrej].
  - destruct (on_message_admitted evt Hadm Hlook Hread) as (-> & _ & _).
    destruct (handle_meeting_log_starts evt (transcript_url evt)) as (rest & Hrest & Hfetch).
    pose proof (handle_meeting_log_fetches_once evt (transcript_url evt)) as Honce.
    unfold calls_only in Honce. rewrite Hrest in *.
    split.
    + split; [done|]. intros _. set_solver.
    + intros Htyping url. destruct (Hfetch Htyping) as (rest' & ->).
      destruct Hadm as (Hm & Hs & Hp).
      apply startswith_app in Hp as [r Hr].
      assert (Hu : transcript_url evt = r).
      { rewrite transcript_url_drop, Hr. apply (drop_app_length MEETBOT_PREFIX). }
      rewrite Hu in *. split.
      * intros Hin. repeat split; auto.
        rewrite Forall_forall in Honce.
        rewrite (Honce (CHttpGet url) ltac:(set_solver) url eq_refl). done.
      * intros (_ & _ & Hb). rewrite Hr in Hb.
        apply String.app_inj in Hb as ->. set_solver.
  - rewrite (rejected_event_calls evt Hrej). split.
    + split; [|done]. case_match; set_solver.
    + intros _ url. split.
      * case_match; set_solver.
      * intros (Hm & Hs & Hb). exfalso. apply Hrej. repeat split; auto.
        apply startswith_app. eauto.
Qed.

(** C5, as amended: when the AI backend returns no summary ([None]), nothing
    is posted and nothing archived; the participants found and a warning are
    logged, and the typing signal is cleared. *)
Theorem absent_summary_is_silent evt meeting_log :
  admits config evt →
  alias_lookup_ok w (room_id evt) = true →
  mark_read w (event_id evt) = inr tt →
  set_typing w (room_id evt) 30000 = inr tt →
  http_get w (transcript_url evt) = inr meeting_log →
  generate_content w (gemini_model config) meeting_log LLM_PROMPT = inr None →
  let run := on_message config w urlparse_path evt in
  let names := participants config w meeting_log in
  outbound run.1
  = [CGetStateEvent (room_id evt); CMarkRead (event_id evt);
     CSetTyping (room_id evt) 30000; CHttpGet (transcript_url evt);
     CGenerateContent (gemini_model config) meeting_log LLM_PROMPT;
     CSetTyping (room_id evt) 0]
  ∧ (LvInfo, [Txt "Found "; Num (Z.of_nat (length names));
              Txt " unique participants: "; Names names]) ∈ logged run.1
  ∧ (LvWarning, [Txt "Could not generate summary for meeting in room ";
                 Txt (room_id evt)]) ∈ logged run.1.
Proof.
  intros Hadm Hlook Hread Htyping Hget Hai. cbv zeta.
  destruct (on_message_admitted evt Hadm Hlook Hread) as (-> & _ & pre & ->).
  unfold handle_meeting_log, get_meeting_log, get_summary, post_summary,
    try_except, out.
  rewrite Htyping, Hget.
  unfold mbind, M_bind, mret, M_ret, log. simpl.
  rewrite extract_usernames_run, Hai. simpl.
  destruct (set_typing w (room_id evt) 0); simpl;
    (split; [done|]); split; apply elem_of_app; right;
    rewrite !list_elem_of_In; simpl; auto 10.
Qed.
End Handler.

Lemma rejected_event_calls_witness :
  ¬ admits Demo.config Demo.chat
  ∧ outbound (on_message Demo.config
                (Demo.world (inr Demo.transcript) (inr (Some "- done")))
                Url.urlparse_path Demo.chat).1
    = [CGetStateEvent "!room:fedora.im"].
Proof.
  assert (H : ¬ admits Demo.config Demo.chat) by (intros (H & _); discriminate H).
  split; [exact H|].
  apply (rejected_event_calls Demo.config
           (Demo.world (inr Demo.transcript) (inr (Some "- done")))
           Url.urlparse_path Demo.chat H).
Defined.

(** C1 fails as stated: a notice of the meeting bot that announces no text
    log is not admitted, and handling it looks the room alias up and marks
    the event read. *)
Lemma rejected_event_counterexample :
  ¬ admits Demo.config Demo.other_notice
  ∧ outbound (on_message Demo.config
                (Demo.world (inr Demo.transcript) (inr (Some "- done")))
                Url.urlparse_path Demo.other_notice).1
    = [CGetStateEvent "!room:fedora.im"; CMarkRead "$ended"].
Proof.
  split; [|reflexivity].
  intros (_ & _ & H). vm_compute in H. discriminate H.
Qed.

Lemma admits_announcement : admits Demo.config Demo.announcement.
Proof. repeat split. Qed.

Lemma fetch_failure_replies_once_witness :
  ∃ text,
    outbound (on_message Demo.config
                (Demo.world (inl Demo.not_found) (inr None))
                Url.urlparse_path Demo.announcement).1
    = [CGetStateEvent "!room:fedora.im"; CMarkRead "$announcement";
       CSetTyping "!room:fedora.im" 30000; CHttpGet Demo.url;
       CReply "$announcement" text]
    ∧ (text = "❌ Failed to fetch meeting log: " +:+ exn_str Demo.not_found
       ∨ text = "❌ Error processing meeting log: " +:+ exn_str Demo.not_found).
Proof.
  apply (fetch_failure_replies_once Demo.config
           (Demo.world (inl Demo.not_found) (inr None))
           Url.urlparse_path Demo.announcement Demo.not_found);
    [apply admits_announcement | reflexivity..].
Defined.

Lemma admission_iff_witness :
  CSetTyping "!room:fedora.im" 30000
  ∈ outbound (on_message Demo.config
                (Demo.world (inr Demo.transcript) (inr (Some "- done")))
                Url.urlparse_path Demo.announcement).1
  ∧ CHttpGet Demo.url
    ∈ outbound (on_message Demo.config
                  (Demo.world (inr Demo.transcript) (inr (Some "- done")))
                  Url.urlparse_path Demo.announcement).1.
Proof.
  destruct (admission_iff Demo.config
              (Demo.world (inr Demo.transcript) (inr (Some "- done")))
              Url.urlparse_path Demo.announcement eq_refl eq_refl)
    as [Htyping Hfetch].
  split.
  - apply Htyping, admits_announcement.
  - apply (Hfetch eq_refl Demo.url). repeat split.
Defined.

Lemma absent_summary_is_silent_witness :
  outbound (on_message Demo.config
              (Demo.world (inr Demo.transcript) (inr None))
              Url.urlparse_path Demo.announcement).1
  = [CGetStateEvent "!room:fedora.im"; CMarkRead "$announcement";
     CSetTyping "!room:fedora.im" 30000; CHttpGet Demo.url;
     CGenerateContent "gemini-2.5-flash" Demo.transcript LLM_PROMPT;
     CSetTyping "!room:fedora.im" 0].
Proof.
  apply (absent_summary_is_silent Demo.config
           (Demo.world (inr Demo.transcript) (inr None))
           Url.urlparse_path Demo.announcement Demo.transcript);
    [apply admits_announcement | reflexivity..].
Defined.

(** C5 fails as stated for an empty summary: the plugin tests [is None]
    only, so the empty text is posted and archived like any other. *)
Lemma empty_summary_counterexample :
  let run := on_message Demo.config
               (Demo.world (inr Demo.transcript) (inr (Some "")))
               Url.urlparse_path Demo.announcement in
  CRespond "$announcement"
    (RESPONSE_TEMPLATE "@alice:server.tld, @bob:server.tld" "") true
  ∈ outbound run.1
  ∧ CWriteText "/data/minutes/meetings/2025-09-25.summary.md" UNVALIDATED_NOTE
    ∈ outbound run.1.
Proof.
  cbv zeta. split; apply (bool_decide_unpack _); vm_compute; exact I.
Qed.

(** C7 fails on the code: when the fetch fails, the handler replies and
    returns with the typing signal still set. *)
Lemma typing_left_on_after_fetch_failure :
  let run := on_message Demo.config
               (Demo.world (inl Demo.not_found) (inr None))
               Url.urlparse_path Demo.announcement in
  outbound run.1
  = [CGetStateEvent "!room:fedora.im"; CMarkRead "$announcement";
     CSetTyping "!room:fedora.im" 30000; CHttpGet Demo.url;
     CReply "$announcement"
       "❌ Error processing meeting log: 404, message='Not Found'"]
  ∧ run.2 = inr tt
  ∧ CSetTyping "!room:fedora.im" 0 ∉ outbound run.1.
Proof.
  cbv zeta. split; [reflexivity|]. split; [reflexivity|].
  apply (bool_decide_unpack _). vm_compute. exact I.
Qed.

(** ** The configuration update *)

Lemma foldl_insert_reverse (l : list (string * yaml)) (acc : gmap string yaml) :
  foldl (λ m kv, <[kv.1 := kv.2]> m) acc l
  = foldr (λ kv m, <[kv.1 := kv.2]> m) acc (reverse l).
Proof.
  revert acc; induction l as [|x l IH]; intros acc; simpl; [done|].
  by rewrite reverse_cons, foldr_snoc, IH.
Qed.

(** Filling an empty mapping entry by entry from [m.items()] gives [m]. *)
Lemma copy_entries (m : gmap string yaml) :
  foldl (λ acc kv, <[kv.1 := kv.2]> acc) ∅ (map_to_list m) = m.
Proof.
  rewrite foldl_insert_reverse.
  change (list_to_map (reverse (map_to_list m)) = m).
  rewrite <- (list_to_map_to_list m) at 2.
  apply list_to_map_proper.
  - rewrite fmap_reverse, reverse_Permutation. apply NoDup_fst_map_to_list.
  - apply reverse_Permutation.
Qed.

Lemma copy_keeps (h : ConfigUpdateHelper.t) (key other : string) :
  key ≠ other →
  ConfigUpdateHelper.base (ConfigUpdateHelper.copy h key) !! other
  = ConfigUpdateHelper.base h !! other.
Proof.
  intros Hne. unfold ConfigUpdateHelper.copy, RecursiveDict.setitem.
  case_match; simpl; [by rewrite lookup_insert_ne | done].
Qed.

Ltac config_step :=
  repeat progress
    (unfold ConfigUpdateHelper.copy_dict, RecursiveDict.contains,
       RecursiveDict.getitem, RecursiveDict.setitem, PyVal.contains,
       PyVal.subscript, PyVal.store, PyVal.items;
     simpl;
     repeat match goal with
            | H : _ !! _ = _ |- _ => rewrite H
            end;
     rewrite ?lookup_insert_eq; simpl).

(** What [update] gives, by the shape of the stored [gemini] section, when
    the default configuration has a [gemini.model]. *)
Lemma update_cases (stored base bg : gmap string yaml) (v : yaml) :
  base !! "gemini" = Some (YMap bg) → bg !! "model" = Some v →
  match stored !! "gemini" with
  | None | Some YNull =>
      ∃ updated, Config.update stored base = inr updated
                 ∧ updated !! "gemini" = Some (YMap bg)
  | Some (YMap g) =>
      ∃ updated, Config.update stored base = inr updated
                 ∧ updated !! "gemini"
                   = Some (YMap (if g !! "model" is Some _ then g
                                 else <["model" := v]> g))
  | Some _ => ∃ e, Config.update stored base = inl e
  end.
Proof.
  intros Hbg Hv. unfold Config.update, Config.do_update.
  destruct (stored !! "gemini") as [[| | | | |g]|] eqn:Hg.
  - config_step. eexists; split; [reflexivity|].
    by rewrite !copy_keeps.
  - config_step. eauto.
  - config_step. eauto.
  - config_step. destruct (PyVal.is_substring "model" s); config_step; eauto.
  - config_step. destruct (existsb _ l); config_step; eauto.
  - config_step. destruct (g !! "model") as [x|] eqn:Hx; simpl.
    + config_step. eexists; split; [reflexivity|].
      rewrite !copy_keeps by done. simpl.
      by rewrite lookup_insert_eq, copy_entries.
    + config_step. eexists; split; [reflexivity|].
      rewrite !copy_keeps by done. simpl.
      by rewrite lookup_insert_eq, copy_entries.
  - config_step. eexists; split; [reflexivity|].
    by rewrite !copy_keeps.
Qed.

(** C10, as amended: when the default configuration has a [gemini.model], a
    stored [gemini] section without model gets the default one, and every
    update that completes yields a configuration with a [gemini.model] key. *)
Theorem update_carries_model (stored base : gmap string yaml) (v : yaml) :
  Config.gemini_model base = Some v →
  (gemini_well_formed stored →
   ∃ updated,
     Config.update stored base = inr updated
     ∧ Config.gemini_model updated
       = match stored !! "gemini" with
         | Some (YMap g) => Some (default v (g !! "model"))
         | _ => Some v
         end)
  ∧ (∀ updated, Config.update stored base = inr updated →
                is_Some (Config.gemini_model updated)).
Proof.
  intros Hv. unfold Config.gemini_model in Hv.
  destruct (base !! "gemini") as [[| | | | |bg]|] eqn:Hbg; try done.
  pose proof (update_cases stored base bg v Hbg Hv) as Hc.
  unfold gemini_well_formed, Config.gemini_model.
  destruct (stored !! "gemini") as [[| | | | |g]|] eqn:Hg;
    try (destruct Hc as (e & He); split; [done | intros u Hu; congruence]);
    destruct Hc as (u & Hu & Hgem); rewrite Hu;
    (split; [intros _; exists u; split; [done|] | intros ? [= <-]]);
    rewrite Hgem; try done; try (by eexists).
  - destruct (g !! "model") eqn:Hx; simpl; [done | by rewrite lookup_insert_eq].
  - destruct (g !! "model") eqn:Hx; simpl; [by eexists | by rewrite lookup_insert_eq].
Qed.

Lemma update_carries_model_witness :
  ∃ updated,
    Config.update Demo.stored_config Demo.base_config = inr updated
    ∧ Config.gemini_model updated = Some (YStr "gemini-2.5-flash").
Proof.
  destruct (update_carries_model Demo.stored_config Demo.base_config
              (YStr "gemini-2.5-flash") eq_refl) as [H _].
  exact (H I).
Defined.

(** C10 fails as stated: a [gemini] section in the default configuration is
    not enough. When that section has no model, an empty stored
    configuration is updated to one without [gemini.model], and a stored
    [gemini] section without model makes the update raise [KeyError]. *)
Lemma update_without_default_model_counterexample :
  is_Some (Demo.base_without_model !! "gemini")
  ∧ Config.update ∅ Demo.base_without_model = inr Demo.base_without_model
  ∧ Config.gemini_model Demo.base_without_model = None
  ∧ Config.update Demo.stored_config Demo.base_without_model
    = inl (Exn KeyError "model").
Proof. repeat split; try reflexivity. by eexists. Qed.

(** ** Characters *)

Lemma between_spec lo hi b :
  Utf8.between lo hi b = true ↔ (lo ≤ Utf8.code b ≤ hi)%N.
Proof. unfold Utf8.between. rewrite andb_true_iff, !N.leb_le. done. Qed.

(** Turns what the tests on bytes say into inequalities. *)
Ltac bytes :=
  unfold Utf8.lead3, Utf8.lead4, Utf8.continuation in *;
  repeat match goal with
  | H : _ && _ = true |- _ => apply andb_true_iff in H as [? ?]
  | H : _ || _ = true |- _ => apply orb_true_iff in H as [?|?]
  | H : Utf8.between _ _ _ = true |- _ => apply between_spec in H
  end.

Ltac width_cases := unfold Utf8.first, Utf8.width; repeat case_match; simplify_eq/=.

Lemma width_le s : (Utf8.width s ≤ String.length s)%nat.
Proof. width_cases; lia. Qed.

Lemma width_pos s : s ≠ "" → (1 ≤ Utf8.width s)%nat.
Proof. intros Hs. width_cases; lia. Qed.

(** An ASCII character is one byte. *)
Lemma width_ascii a r : (Utf8.code a < 128)%N → Utf8.width (String a r) = 1%nat.
Proof. intros Ha. width_cases; try done; bytes; lia. Qed.

(** No byte of a character of several bytes is ASCII. *)
Lemma first_high (c : ascii) s :
  (Utf8.code c < 128)%N → Utf8.width s ≠ 1%nat →
  PyStr.contains c (Utf8.first s) = false.
Proof.
  intros Hc. width_cases; try done; intros _;
    repeat (case_decide; [subst; bytes; lia|]); done.
Qed.

(** A character does not reach over an ASCII byte. *)
Lemma width_stops (c : ascii) x r :
  (Utf8.code c < 128)%N → x ≠ "" →
  (Utf8.width (x +:+ String c r) ≤ String.length x)%nat.
Proof.
  intros Hc Hx.
  destruct x as [|b0 [|b1 [|b2 [|b3 x]]]]; [done|..];
    rewrite ?app_cons, ?app_nil_l; destruct r as [|r0 [|r1 r]];
    width_cases; try lia; bytes; lia.
Qed.

Lemma first_nonempty s : s ≠ "" → Utf8.first s ≠ "".
Proof.
  intros Hs. pose proof (width_pos s Hs). unfold Utf8.first.
  destruct s; [done|]. destruct (Utf8.width _); [lia|done].
Qed.

Lemma first_drop s : Utf8.first s +:+ PyStr.drop (Utf8.width s) s = s.
Proof. apply take_drop. Qed.

(** The first character is the ASCII [a] when the first byte is. *)
Lemma first_ascii (a : ascii) s :
  (Utf8.code a < 128)%N →
  Utf8.first s = String a "" ↔ ∃ s', s = String a s'.
Proof.
  intros Ha. split.
  - intros H. destruct s as [|b s]; [done|].
    unfold Utf8.first in H. destruct (Utf8.width _); simplify_eq/=. eauto.
  - intros [s' ->]. unfold Utf8.first. rewrite width_ascii by done.
    by destruct s'.
Qed.

(** ** Strings, continued *)

Lemma take_add (n m : nat) (s : string) :
  PyStr.take (n + m) s = PyStr.take n s +:+ PyStr.take m (PyStr.drop n s).
Proof.
  revert s; induction n as [|n IH]; intros [|c s]; simpl;
    rewrite ?app_nil_l, ?app_cons; try done.
  - by destruct m.
  - by rewrite IH.
Qed.

Lemma take_app_le (n : nat) (a b : string) :
  (n ≤ String.length a)%nat → PyStr.take n (a +:+ b) = PyStr.take n a.
Proof.
  revert a; induction n as [|n IH]; intros [|c a]; simpl;
    rewrite ?app_nil_l, ?app_cons; simpl; try done; try lia.
  intros H. rewrite IH by lia. done.
Qed.

Lemma drop_app_le (n : nat) (a b : string) :
  (n ≤ String.length a)%nat → PyStr.drop n (a +:+ b) = PyStr.drop n a +:+ b.
Proof.
  revert a; induction n as [|n IH]; intros [|c a]; simpl;
    rewrite ?app_nil_l, ?app_cons; simpl; try done; try lia.
  intros H. apply IH. lia.
Qed.

Lemma contains_app (c : ascii) (a b : string) :
  PyStr.contains c (a +:+ b) = PyStr.contains c a || PyStr.contains c b.
Proof.
  induction a as [|x a IH]; rewrite ?app_nil_l, ?app_cons; simpl; [done|].
  by destruct (decide (x = c)).
Qed.

Lemma contains_take_drop (c : ascii) (n : nat) (s : string) :
  PyStr.contains c s = false →
  PyStr.contains c (PyStr.take n s) = false
  ∧ PyStr.contains c (PyStr.drop n s) = false.
Proof.
  rewrite <- (take_drop n s) at 1. rewrite contains_app.
  by intros [? ?]%orb_false_iff.
Qed.

Lemma app_inv_tail_str (a b r : string) : a +:+ r = b +:+ r → a = b.
Proof.
  intros H.
  assert (Hl : String.length a = String.length b).
  { apply (f_equal String.length) in H. rewrite !length_app in H. lia. }
  revert b Hl H; induction a as [|c a IH]; intros [|d b]; simpl; try done.
  rewrite !app_cons. intros [= Hl] [= -> H]. f_equal. by apply IH.
Qed.

(** A text without [c], followed by [c], is cut in one way only. *)
Lemma app_until_inj (c : ascii) (a a' b b' : string) :
  PyStr.contains c a = false → PyStr.contains c a' = false →
  a +:+ String c b = a' +:+ String c b' → a = a' ∧ b = b'.
Proof.
  revert a'; induction a as [|x a IH]; intros [|x' a']; simpl;
    rewrite ?app_cons, ?app_nil_l.
  - by intros _ _ [= ->].
  - destruct (decide (x' = c)); [done|]. intros _ _ [= ->]. done.
  - destruct (decide (x = c)); [done|]. intros _ _ [= ->]. done.
  - destruct (decide (x = c)); [done|]. destruct (decide (x' = c)); [done|].
    intros Ha Ha' [= -> H]. destruct (IH a' Ha Ha' H) as [-> ->]. done.
Qed.

(** ** The matcher *)

Section MatcherProperties.
Variable decimal : N → bool.

Lemma elem_of_match_seq_cons a l s x r :
  (x, r) ∈ Re.match_seq decimal (a :: l) s
  ↔ ∃ x1 r1 y, (x1, r1) ∈ Re.match_atom decimal a s
               ∧ (y, r) ∈ Re.match_seq decimal l r1 ∧ x = x1 +:+ y.
Proof.
  simpl. rewrite list_elem_of_bind. split.
  - intros ([x1 r1] & H & H1). apply list_elem_of_bind in H as ([y r'] & H & H2).
    apply list_elem_of_singleton in H. simplify_eq. eauto 10.
  - intros (x1 & r1 & y & H1 & H2 & ->). exists (x1, r1). split; [|done].
    apply list_elem_of_bind. exists (y, r). split; [|done].
    by apply list_elem_of_singleton.
Qed.

Lemma elem_of_match_seq_nil s x r :
  (x, r) ∈ Re.match_seq decimal [] s ↔ x = "" ∧ r = s.
Proof. simpl. rewrite list_elem_of_singleton. naive_solver. Qed.

Lemma first_in_some k s n :
  Re.first_in decimal k s = Some n
  ↔ s ≠ "" ∧ Re.in_charset decimal k (Utf8.first s) = true ∧ n = Utf8.width s.
Proof.
  unfold Re.first_in. destruct s as [|c s]; [naive_solver|].
  destruct (Re.in_charset _ _ _); naive_solver.
Qed.

(** One character of a set: the first character of the text, when it is
    in the set. *)
Lemma elem_of_match_atom_one k s x r :
  (x, r) ∈ Re.match_atom decimal (Re.One k) s
  ↔ s ≠ "" ∧ Re.in_charset decimal k (Utf8.first s) = true
    ∧ x = Utf8.first s ∧ r = PyStr.drop (Utf8.width s) s.
Proof.
  simpl. destruct (Re.first_in decimal k s) as [n|] eqn:Hn.
  - apply first_in_some in Hn as (Hs & Hk & ->).
    rewrite list_elem_of_singleton. unfold Utf8.first. naive_solver.
  - split; [by intros ?%elem_of_nil|]. intros (Hs & Hk & _).
    assert (Re.first_in decimal k s = Some (Utf8.width s)) by by apply first_in_some.
    congruence.
Qed.

(** A text of a given shape is cut in one way only, and every character
    of the shape takes at least one byte of it. *)
Lemma fits_functional shape s r r' :
  fits decimal shape s r → fits decimal shape s r' → r = r'.
Proof.
  revert s; induction shape as [|f shape IH]; intros s; simpl; [congruence|].
  destruct (decide (f = "d"%char)).
  - intros (_ & _ & H) (_ & _ & H'). eauto.
  - intros (s1 & -> & H) (s2 & [= <-] & H'). eauto.
Qed.

Lemma fits_prefix shape s r :
  fits decimal shape s r →
  ∃ x, s = x +:+ r ∧ (String.length shape ≤ String.length x)%nat.
Proof.
  revert s; induction shape as [|f shape IH]; intros s; simpl.
  - intros ->. by exists "".
  - destruct (decide (f = "d"%char)).
    + intros (Hs & _ & (y & Hy & Hlen)%IH). exists (Utf8.first s +:+ y).
      split; [by rewrite app_assoc_str, <- Hy, first_drop|].
      rewrite length_app. apply first_nonempty in Hs.
      destruct (Utf8.first s); [done|]. simpl. lia.
    + intros (s' & -> & (y & -> & Hlen)%IH). exists (String f y).
      split; [done|]. simpl. lia.
Qed.

(** The atoms of a shape match the texts that start with the shape. *)
Lemma elem_of_match_shape shape s x r :
  Forall (λ f, (Utf8.code f < 128)%N) (list_ascii_of_string shape) →
  (x, r) ∈ Re.match_seq decimal (shape_atoms shape) s
  ↔ fits decimal shape s r ∧ s = x +:+ r.
Proof.
  intros Hshape. revert s x; induction shape as [|f shape IH]; intros s x.
  - change (shape_atoms "") with (@nil Re.atom).
    rewrite elem_of_match_seq_nil. simpl. split; [naive_solver|].
    intros [-> H]. split; [|done]. apply (app_inv_tail_str _ _ s). by rewrite <- H.
  - apply Forall_cons in Hshape as [Hf Hshape]. specialize (IH Hshape).
    change (shape_atoms (String f shape))
      with (Re.One (if decide (f = "d"%char) then Re.Digit else Re.Lit f)
            :: shape_atoms shape).
    rewrite elem_of_match_seq_cons. simpl fits. split.
    + intros (x1 & r1 & y & (Hs & Hk & -> & ->)%elem_of_match_atom_one
              & (Hy & Hr)%IH & ->).
      split; [|by rewrite app_assoc_str, <- Hr, first_drop].
      destruct (decide (f = "d"%char)); simpl in Hk; [done|].
      apply bool_decide_eq_true in Hk.
      pose proof Hk as [s' ->]%first_ascii; [|done].
      exists s'. split; [done|]. by rewrite width_ascii in Hy.
    + intros [Hfits ->].
      assert (Hone : x +:+ r ≠ ""
                ∧ Re.in_charset decimal
                    (if decide (f = "d"%char) then Re.Digit else Re.Lit f)
                    (Utf8.first (x +:+ r)) = true
                ∧ fits decimal shape
                    (PyStr.drop (Utf8.width (x +:+ r)) (x +:+ r)) r).
      { destruct (decide (f = "d"%char)); [done|].
        destruct Hfits as (s' & Hs & Hfits). rewrite Hs. split; [done|].
        rewrite width_ascii by done. split; [|done].
        simpl. apply bool_decide_eq_true. apply first_ascii; eauto. }
      destruct Hone as (Hs & Hk & Hrest).
      set (s := x +:+ r) in *.
      assert (∃ y, (y, r) ∈ Re.match_seq decimal (shape_atoms shape)
                                 (PyStr.drop (Utf8.width s) s)
                   ∧ x = Utf8.first s +:+ y) as (y & Hy & Hx).
      { destruct (fits_prefix _ _ _ Hrest) as (y & Hy & _). exists y.
        split; [by apply IH|]. apply (app_inv_tail_str _ _ r).
        rewrite app_assoc_str, <- Hy. by rewrite first_drop. }
      exists (Utf8.first s), (PyStr.drop (Utf8.width s) s), y.
      split; [by apply elem_of_match_atom_one|]. done.
Qed.

(** A run of characters other than the ASCII [c] stops at a character
    boundary, is not empty and holds no [c]. *)
Lemma elem_of_runs_notlit (c : ascii) fuel s i :
  (Utf8.code c < 128)%N →
  i ∈ Re.runs decimal fuel (Re.NotLit c) s →
  i ≠ 0%nat ∧ (i ≤ String.length s)%nat
  ∧ PyStr.contains c (PyStr.take i s) = false.
Proof.
  intros Hc. revert s i; induction fuel as [|fuel IH]; intros s i; simpl.
  { by intros ?%elem_of_nil. }
  destruct (Re.first_in _ _ _) as [n|] eqn:Hn; [|by intros ?%elem_of_nil].
  apply first_in_some in Hn as (Hs & Hk & ->).
  pose proof (width_pos s Hs). pose proof (width_le s).
  assert (Hfirst : PyStr.contains c (PyStr.take (Utf8.width s) s) = false).
  { fold (Utf8.first s). simpl in Hk. apply negb_true_iff, bool_decide_eq_false in Hk.
    destruct (decide (Utf8.width s = 1%nat)) as [Hw|Hw]; [|by apply first_high].
    unfold Utf8.first in *. rewrite Hw in *. destruct s as [|a s]; [done|].
    simpl in *. destruct s; case_decide; simplify_eq/=; done. }
  intros [->|(m & -> & Hm)%list_elem_of_fmap]%elem_of_cons.
  - split; [lia|]. done.
  - apply IH in Hm as (Hm & Hlen & Hno). rewrite length_drop in Hlen.
    split; [lia|]. split; [lia|].
    rewrite take_add, contains_app, Hfirst, Hno. done.
Qed.

(** The run reaches every [c] that only characters other than [c]
    precede. *)
Lemma runs_notlit_until (c : ascii) fuel x r :
  (Utf8.code c < 128)%N → x ≠ "" → PyStr.contains c x = false →
  (String.length x ≤ fuel)%nat →
  String.length x ∈ Re.runs decimal fuel (Re.NotLit c) (x +:+ String c r).
Proof.
  intros Hc. revert x; induction fuel as [|fuel IH]; intros x Hx Hno Hfuel.
  { destruct x; simpl in *; [done|lia]. }
  simpl. set (s := x +:+ String c r).
  pose proof (width_stops c x r Hc Hx) as Hw. fold s in Hw.
  assert (Hs : s ≠ "") by (subst s; by destruct x).
  pose proof (width_pos s Hs).
  assert (Hn : Re.first_in decimal (Re.NotLit c) s = Some (Utf8.width s)).
  { apply first_in_some. split; [done|]. split; [|done].
    simpl. apply negb_true_iff, bool_decide_eq_false. intros Heq.
    assert (PyStr.contains c (Utf8.first s) = false) as Hf.
    { unfold Utf8.first, s. rewrite take_app_le by done.
      by apply contains_take_drop. }
    rewrite Heq in Hf. simpl in Hf. by case_decide. }
  rewrite Hn. destruct (decide (Utf8.width s = String.length x)) as [->|Hne].
  { apply list_elem_of_here. }
  apply list_elem_of_further, list_elem_of_fmap.
  exists (String.length x - Utf8.width s)%nat. split; [lia|].
  rewrite (drop_app_le (Utf8.width s) x (String c r) Hw : PyStr.drop _ s = _).
  rewrite <- length_drop. apply IH.
  - intros Heq. apply (f_equal String.length) in Heq.
    rewrite length_drop in Heq. simpl in Heq. lia.
  - by apply contains_take_drop.
  - rewrite length_drop. lia.
Qed.

(** What [[^c]+] can match in front of a [c]: the characters up to the
    first [c], when there is one. *)
Lemma elem_of_match_atom_plus (c : ascii) s x r :
  (Utf8.code c < 128)%N →
  (x, String c r) ∈ Re.match_atom decimal (Re.Plus (Re.NotLit c)) s
  ↔ x ≠ "" ∧ PyStr.contains c x = false ∧ s = x +:+ String c r.
Proof.
  intros Hc. simpl. rewrite list_elem_of_fmap. split.
  - intros (i & [= -> Hr] & Hi). rewrite elem_of_reverse in Hi.
    apply elem_of_runs_notlit in Hi as (Hi & Hlen & Hno); [|done].
    split; [|split; [done | by rewrite Hr, take_drop]].
    intros Heq. apply (f_equal String.length) in Heq.
    rewrite length_take in Heq. simpl in Heq. lia.
  - intros (Hx & Hno & ->). exists (String.length x).
    rewrite take_app_length, drop_app_length. split; [done|].
    rewrite elem_of_reverse. apply runs_notlit_until; try done.
    rewrite length_app. lia.
Qed.

(** The alternatives of the matcher on the plugin's pattern are the
    speaker lines. *)
Lemma elem_of_match_username s g rest :
  (g, rest) ∈ ('(_, r1) ← Re.match_seq decimal (Re.before USERNAME_PATTERN) s;
               '(g, r2) ← Re.match_seq decimal (Re.group USERNAME_PATTERN) r1;
               '(_, r3) ← Re.match_seq decimal (Re.after USERNAME_PATTERN) r2;
               [(g, r3)])
  ↔ speaker_line decimal s g rest.
Proof.
  change (Re.before USERNAME_PATTERN) with (shape_atoms "dddd-dd-dd dd:dd:dd <").
  change (Re.after USERNAME_PATTERN) with (shape_atoms "> ").
  change (Re.group USERNAME_PATTERN)
    with (Re.One (Re.Lit "@") :: [Re.Plus (Re.NotLit ">")]).
  assert (Hhead : Forall (λ f, (Utf8.code f < 128)%N)
                    (list_ascii_of_string "dddd-dd-dd dd:dd:dd <"))
    by (repeat constructor).
  assert (Hafter : Forall (λ f, (Utf8.code f < 128)%N) (list_ascii_of_string "> "))
    by (repeat constructor).
  assert (Hat : (Utf8.code "@" < 128)%N) by done.
  assert (Hgt : (Utf8.code ">" < 128)%N) by done.
  unfold speaker_line. split.
  - intros ([x1 r1] & H & (Hfits & ->)%elem_of_match_shape)%list_elem_of_bind;
      [|done].
    apply list_elem_of_bind in H as ([g' r2] & H & Hg).
    apply list_elem_of_bind in H as ([x3 r3] & H & Hx3).
    apply elem_of_match_shape in Hx3 as (Hx3 & _); [|done].
    apply list_elem_of_singleton in H. simplify_eq.
    simpl in Hx3. destruct Hx3 as (s1 & -> & s2 & -> & ->).
    apply elem_of_match_seq_cons in Hg as (a & ra & y & Ha & Hy & ->).
    apply elem_of_match_atom_one in Ha as (Hr1 & Hk & -> & ->).
    apply bool_decide_eq_true in Hk.
    pose proof Hk as [t ->]%first_ascii; [|done]. rewrite Hk.
    rewrite width_ascii in Hy by done.
    change (PyStr.drop 1 (String "@" t)) with t in Hy.
    apply elem_of_match_seq_cons in Hy as (n & rn & z & Hn & Hz & ->).
    apply elem_of_match_seq_nil in Hz as [-> <-].
    apply elem_of_match_atom_plus in Hn as (Hne & Hno & ->); [|done].
    eexists _, n. rewrite app_empty_r.
    split; [done|]. split; [done|]. split; [done|]. split; [done|].
    by rewrite !app_cons, !app_nil_l.
  - intros (tail & name & Hfits & Hne & Hno & -> & ->).
    destruct (fits_prefix _ _ _ Hfits) as (head & Hhd & _).
    apply list_elem_of_bind. exists (head, "@" +:+ name +:+ "> " +:+ rest).
    split; [|by apply elem_of_match_shape].
    apply list_elem_of_bind. exists ("@" +:+ name, "> " +:+ rest). split.
    + apply list_elem_of_bind. exists ("> ", rest). split.
      * by apply list_elem_of_singleton.
      * apply elem_of_match_shape; [done|]. simpl. eauto 10.
    + apply elem_of_match_seq_cons.
      exists "@", (name +:+ "> " +:+ rest), name. split; [|split; [|done]].
      * apply elem_of_match_atom_one.
        rewrite !app_cons, !app_nil_l. rewrite width_ascii by done.
        split; [done|]. split; [|split; [|done]].
        -- simpl. apply bool_decide_eq_true. apply first_ascii; eauto.
        -- symmetry. apply first_ascii; eauto.
      * apply elem_of_match_seq_cons. exists name, ("> " +:+ rest), "".
        split; [|split].
        -- by apply elem_of_match_atom_plus.
        -- by apply elem_of_match_seq_nil.
        -- by rewrite app_empty_r.
Qed.

(** At most one speaker line starts a text. *)
Lemma speaker_line_unique s g rest g' rest' :
  speaker_line decimal s g rest → speaker_line decimal s g' rest' →
  g = g' ∧ rest = rest'.
Proof.
  intros (t & n & Hh & _ & Hn & -> & ->) (t' & n' & Hh' & _ & Hn' & -> & ->).
  pose proof (fits_functional _ _ _ _ Hh Hh') as Heq.
  rewrite !app_assoc_str, !app_cons, !app_nil_l in Heq.
  injection Heq as Heq.
  apply app_until_inj in Heq as [-> [= ->]]; done.
Qed.

Lemma match_here_username s g rest :
  Re.match_here decimal USERNAME_PATTERN s = Some (g, rest)
  ↔ speaker_line decimal s g rest.
Proof.
  unfold Re.match_here. rewrite <- elem_of_match_username.
  set (alts := _ ≫= _). split.
  - intros H. destruct alts; simplify_eq/=. apply list_elem_of_here.
  - intros H. destruct alts as [|[g' rest'] alts'] eqn:Ha; [by apply elem_of_nil in H|].
    simpl. f_equal.
    assert (H' : (g', rest') ∈ alts) by (rewrite Ha; apply list_elem_of_here).
    subst alts. rewrite <- Ha in H.
    apply elem_of_match_username in H, H'.
    destruct (speaker_line_unique _ _ _ _ _ H' H) as [-> ->]. done.
Qed.

Lemma match_here_username_none s :
  Re.match_here decimal USERNAME_PATTERN s = None
  ↔ ∀ g rest, ¬ speaker_line decimal s g rest.
Proof.
  split.
  - intros H g rest Hs%match_here_username. congruence.
  - intros H.
    destruct (Re.match_here decimal USERNAME_PATTERN s) as [[g rest]|] eqn:Hm; [|done].
    apply match_here_username in Hm. by apply H in Hm.
Qed.

Lemma findall_from_skip p skip s :
  (skip ≤ String.length s)%nat →
  Re.findall_from decimal p skip s
  = Re.findall_from decimal p 0 (PyStr.drop skip s).
Proof.
  revert skip; induction s as [|c s IH]; intros [|skip]; simpl; try done; try lia.
  intros H. apply IH. lia.
Qed.

(** A speaker line is not empty, and the rest is what is left of the text
    after it. *)
Lemma speaker_line_rest s g rest :
  speaker_line decimal s g rest →
  ∃ c s', s = String c s' ∧ (String.length rest ≤ String.length s')%nat
          ∧ PyStr.drop (String.length s' - String.length rest) s' = rest.
Proof.
  intros (t & n & (h & -> & Hlen)%fits_prefix & _ & _ & -> & ->).
  destruct h as [|c h]; [simpl in Hlen; lia|]. clear Hlen.
  rewrite app_cons. exists c, (h +:+ ("@" +:+ n) +:+ "> " +:+ rest).
  split; [done|].
  replace (h +:+ ("@" +:+ n) +:+ "> " +:+ rest)
    with ((h +:+ ("@" +:+ n) +:+ "> ") +:+ rest)
    by (by rewrite !app_assoc_str).
  set (pre := h +:+ ("@" +:+ n) +:+ "> ").
  rewrite length_app. split; [lia|].
  replace (String.length pre + String.length rest - String.length rest)%nat
    with (String.length pre) by lia.
  apply drop_app_length.
Qed.

(** [findall] with the plugin's pattern reads the speaker lines. *)
Lemma findall_speakers s :
  speakers decimal s (Re.findall decimal USERNAME_PATTERN s).
Proof.
  unfold Re.findall.
  remember (String.length s) as n eqn:Hn.
  revert s Hn. induction (lt_wf n) as [n _ IH]. intros s ->.
  destruct s as [|c s]; [constructor|]. cbn [Re.findall_from].
  destruct (Re.match_here decimal USERNAME_PATTERN (String c s))
    as [[g rest]|] eqn:Hm.
  - apply match_here_username in Hm.
    destruct (speaker_line_rest _ _ _ Hm) as (c' & s' & [= <- <-] & Hlen & Hdrop).
    rewrite findall_from_skip by lia. rewrite Hdrop.
    apply speakers_hit with rest; [done|].
    apply (IH (String.length rest)); [simpl; lia | done].
  - assert (Hpos : (1 ≤ Utf8.width (String c s))%nat) by by apply width_pos.
    pose proof (width_le (String c s)) as Hle.
    change (String.length (String c s)) with (S (String.length s)) in Hle.
    rewrite findall_from_skip by lia.
    apply speakers_skip; [done | by apply match_here_username_none|].
    destruct (Utf8.width (String c s)) as [|k] eqn:Hw; [lia|].
    replace (S k - 1)%nat with k by lia. simpl.
    apply (IH (String.length (PyStr.drop k s))); [|done].
    rewrite length_drop. simpl. lia.
Qed.

Lemma speaker_line_nonempty g rest : ¬ speaker_line decimal "" g rest.
Proof. by intros (c & s' & ? & _)%speaker_line_rest. Qed.

(** The speaker lines of a text are read in one way only. *)
Lemma speakers_unique s l l' :
  speakers decimal s l → speakers decimal s l' → l = l'.
Proof.
  intros H; revert l'. induction H as [|s g rest l Hs _ IH|s l Hne Hno _ IH];
    intros l' H'; inversion H'; subst.
  - done.
  - by apply speaker_line_nonempty in H.
  - done.
  - by apply speaker_line_nonempty in Hs.
  - destruct (speaker_line_unique _ _ _ _ _ Hs H) as [-> ->].
    f_equal. by apply IH.
  - by apply H0 in Hs.
  - done.
  - by apply Hno in H.
  - by apply IH.
Qed.

Lemma speakers_identities s l :
  speakers decimal s l →
  ∀ u, u ∈ l → ∃ name, u = "@" +:+ name ∧ name ≠ ""
                       ∧ PyStr.contains ">" name = false.
Proof.
  induction 1 as [|s g rest l (h & n & _ & Hn & Hc & -> & _) _ IH|s l _ _ _ IH];
    intros u Hu.
  - by apply elem_of_nil in Hu.
  - apply elem_of_cons in Hu as [->|Hu]; eauto.
  - eauto.
Qed.

(** X1: [re.findall] with the plugin's pattern returns the identities of
    the speaker lines of the text, in the order of the text and as often as
    they occur, and nothing else: the scan starts at the left, resumes
    where a speaker line ends and otherwise one character further. *)
Theorem findall_reads_speakers s l :
  speakers decimal s l ↔ l = Re.findall decimal USERNAME_PATTERN s.
Proof.
  split.
  - intros Hl. apply (speakers_unique _ _ _ Hl), findall_speakers.
  - intros ->. apply findall_speakers.
Qed.

End MatcherProperties.

(** ** The participants *)

Lemma sorted_strict (l : list string) :
  StronglySorted String.le l → NoDup l → StronglySorted PyStr.lt l.
Proof.
  induction 1 as [|x l Hl IH Hx]; intros Hnd; constructor.
  - apply IH. by apply NoDup_cons in Hnd as [_ ?].
  - apply NoDup_cons in Hnd as [Hx' _].
    rewrite Forall_forall in *. intros y Hy. split; [by apply Hx|].
    intros ->. done.
Qed.

Lemma sorted_spec (s : gset string) :
  StronglySorted PyStr.lt (sorted s) ∧ NoDup (sorted s) ∧ ∀ u, u ∈ sorted s ↔ u ∈ s.
Proof.
  unfold sorted.
  assert (Hp : merge_sort String.le (elements s) ≡ₚ elements s)
    by apply merge_sort_Permutation.
  assert (Hnd : NoDup (merge_sort String.le (elements s))).
  { rewrite Hp. apply NoDup_elements. }
  split; [|split; [done|]].
  - apply sorted_strict; [|done]. apply StronglySorted_merge_sort; apply _.
  - intros u. rewrite Hp. apply elem_of_elements.
Qed.

(** The loop over the ignored identities never raises: it takes them out
    of the set, those that are not in it included. *)
Lemma remove_ignored_minus (ids : list string) (us : gset string) :
  remove_ignored ids us = inr (us ∖ list_to_set ids).
Proof.
  revert us; induction ids as [|x ids IH]; intros us; simpl.
  - f_equal. set_solver.
  - unfold set_remove. destruct (decide (x ∈ us)); simpl; rewrite IH;
      f_equal; set_solver.
Qed.

Lemma extract_usernames_returns config w (meeting_log : string) :
  (extract_usernames config w meeting_log).2
  = inr (participants config w meeting_log).
Proof.
  unfold extract_usernames, participants. by rewrite remove_ignored_minus.
Qed.

Section Participants.
Variable config : Settings.
Variable w : World.

(** C2: [extract_usernames] never raises; its result is strictly sorted,
    hence without duplicates, and holds exactly the identities of the
    speaker lines of the transcript, read from left to right, that are
    neither the bot's own, the meeting bot's nor an ignored one. The
    speaker lines of a transcript are read in one way only. Taking an
    absent identity out of the set is no error. *)
Theorem extract_usernames_spec (meeting_log : string) :
  ∃ found result,
    speakers (unicode_decimal w) meeting_log found
    ∧ (∀ l, speakers (unicode_decimal w) meeting_log l → l = found)
    ∧ (extract_usernames config w meeting_log).2 = inr result
    ∧ StronglySorted PyStr.lt result
    ∧ NoDup result
    ∧ (∀ u, u ∈ result
            ↔ u ∈ found ∧ u ≠ mxid w ∧ u ≠ meetbot_id config
              ∧ u ∉ ignored_participants config)
    ∧ (∀ (x : string) (s : gset string),
         x ∉ s → suppress KeyError s (set_remove x s) = inr s).
Proof.
  exists (Re.findall (unicode_decimal w) USERNAME_PATTERN meeting_log).
  exists (participants config w meeting_log).
  split; [apply findall_speakers|].
  split; [intros l Hl; apply (speakers_unique _ _ _ _ Hl), findall_speakers|].
  split; [apply extract_usernames_returns|].
  destruct (sorted_spec
              (list_to_set (Re.findall (unicode_decimal w) USERNAME_PATTERN
                              meeting_log)
               ∖ list_to_set ([mxid w; meetbot_id config]
                              ++ ignored_participants config)))
    as (Hs & Hnd & Hin).
  split; [done|]. split; [done|]. split.
  - intros u. unfold participants. rewrite Hin.
    rewrite elem_of_difference, !elem_of_list_to_set, elem_of_app.
    rewrite !elem_of_cons, elem_of_nil. tauto.
  - intros x s Hx. unfold set_remove. destruct (decide (x ∈ s)); done.
Qed.
End Participants.



(** ** Normal completion and failures of the handler *)

Lemma returns_ret {A} (a : A) : returns (mret a : M A).
Proof. by exists a. Qed.

Lemma returns_log lv msg : returns (log lv msg).
Proof. by exists tt. Qed.

Lemma returns_out {A} c (r : res A) a : r = inr a → returns (out c r).
Proof. intros ->. by exists a. Qed.

Lemma returns_bind {A B} (m : M A) (f : A → M B) :
  returns m → (∀ a, m.2 = inr a → returns (f a)) → returns (m ≫= f).
Proof.
  destruct m as [t [e|a]]; intros [a' Ha] Hf; simplify_eq/=.
  destruct (Hf a' eq_refl) as [b Hb]. unfold mbind, M_bind.
  destruct (f a') as [t' r]. simpl in *. by exists b.
Qed.

Lemma returns_try {A} (m : M A) h :
  (∀ e, m.2 = inl e → ∃ k, h e = Some k ∧ returns k) →
  returns (try_except m h).
Proof.
  destruct m as [t [e|a]]; simpl; [|by exists a].
  intros H. destruct (H e eq_refl) as ([t' r] & -> & [a Ha]). by exists a.
Qed.

Lemma bind_returned {A B} (m : M A) (f : A → M B) a :
  m.2 = inr a → m ≫= f = (m.1 ++ (f a).1, (f a).2).
Proof.
  destruct m as [t r]. simpl. intros ->. unfold mbind, M_bind.
  by destruct (f a).
Qed.

Lemma bind_raised {A B} (m : M A) (f : A → M B) e :
  m.2 = inl e → m ≫= f = (m.1, inl e).
Proof. destruct m as [t r]. simpl. by intros ->. Qed.

Section Completion.
Variable config : Settings.
Variable w : World.
Variable urlparse_path : string → res string.

(** When all collaborators but the HTTP session answer, the handler
    completes: nothing in the plugin itself raises, and a failed fetch is
    handled. *)
Lemma get_room_alias_returns room :
  alias_lookup_ok w room = true → returns (_get_room_alias w room).
Proof.
  unfold alias_lookup_ok, _get_room_alias, try_except, out. intros H.
  destruct (get_state_event w room) as [e|a]; [|by eexists].
  apply bool_decide_eq_true in H. rewrite decide_True by done. by eexists.
Qed.

(** [get_meeting_log] makes one HTTP call, and the only exception that
    leaves it is [MeetingLogFetchingError], whose text is the failure
    glyph, a phrase chosen by the class of the original exception, and the
    original text. *)
Lemma get_meeting_log_wraps evt url :
  outbound (get_meeting_log w evt url).1 = [CHttpGet url]
  ∧ match http_get w url with
    | inr doc => (get_meeting_log w evt url).2 = inr doc
    | inl e =>
        (get_meeting_log w evt url).2
        = inl (Exn MeetingLogFetchingError
                 ((if decide (exn_cls e = HTTPError)
                   then "❌ Failed to fetch meeting log: "
                   else "❌ Error processing meeting log: ") +:+ exn_str e))
    end.
Proof.
  unfold get_meeting_log, try_except, out.
  destruct (http_get w url) as [e|doc]; [|done].
  by destruct (decide (exn_cls e = HTTPError)).
Qed.

Lemma extract_usernames_ok (meeting_log : string) :
  returns (extract_usernames config w meeting_log).
Proof. eexists. apply extract_usernames_returns. Qed.

Lemma save_summary_returns summary path validated :
  cooperative w →
  returns (_save_summary_to_file config w summary path validated).
Proof.
  intros C. unfold _save_summary_to_file. case_match; [apply returns_ret|].
  repeat first
    [ apply returns_log | apply returns_bind; [|intros ? ?]
    | apply (returns_out _ _ tt); first [apply (coop_mkdir _ C) | apply (coop_write _ C)] ].
Qed.

Lemma post_summary_returns evt summary usernames url :
  cooperative w →
  (∃ path, urlparse_path url = inr path) →
  returns (post_summary config w urlparse_path evt summary usernames url).
Proof.
  intros C [path Hpath]. unfold post_summary.
  destruct summary as [summary|]; [|apply returns_log].
  destruct (coop_respond _ C (event_id evt)
              (RESPONSE_TEMPLATE (PyStr.join ", " usernames) summary) true)
    as [sent Hsent].
  repeat first
    [ apply returns_log | apply save_summary_returns; done
    | apply returns_bind; [|intros ? ?]
    | apply (returns_out _ _ tt); apply (coop_react _ C)
    | apply (returns_out _ _ sent Hsent)
    | by (unfold lift; rewrite Hpath; exists path) ].
Qed.

Lemma handle_meeting_log_returns evt url :
  cooperative w →
  (∃ path, urlparse_path url = inr path) →
  returns (handle_meeting_log config w urlparse_path evt url).
Proof.
  intros C Hurl. unfold handle_meeting_log.
  apply returns_bind; [apply (returns_out _ _ tt), (coop_typing _ C)|intros _ _].
  apply returns_bind.
  - apply returns_try. intros e He.
    assert (Hc : exn_cls e = MeetingLogFetchingError).
    { pose proof (get_meeting_log_wraps evt url) as [_ Hw].
      unfold mbind, M_bind in He.
      destruct (get_meeting_log w evt url) as [t [e'|doc]]; simplify_eq/=.
      destruct (http_get w url); simplify_eq/=. done. }
    rewrite decide_True by done. eexists. split; [done|].
    destruct (coop_reply _ C (event_id evt) (exn_str e)) as [sent Hsent].
    apply returns_bind; [apply (returns_out _ _ sent Hsent) | intros; apply returns_ret].
  - intros [meeting_log|] _; [|apply returns_ret].
    destruct (coop_ai _ C (gemini_model config) meeting_log LLM_PROMPT) as [text Htext].
    repeat first
      [ apply extract_usernames_ok | apply post_summary_returns; done
      | apply returns_bind; [|intros ? ?]
      | apply (returns_out _ _ tt), (coop_typing _ C)
      | apply (returns_out _ _ text Htext) ].
Qed.

(** X3: when all collaborators but the HTTP session answer and [urlparse]
    accepts the URL of the announcement, the handler completes: nothing in
    the plugin itself raises, and a failed fetch is handled. *)
Theorem on_message_completes evt :
  cooperative w →
  (∃ path, urlparse_path (transcript_url evt) = inr path) →
  (on_message config w urlparse_path evt).2 = inr tt.
Proof.
  intros C Hurl.
  assert (H : returns (on_message config w urlparse_path evt)).
  { unfold on_message. fold (transcript_url evt).
    apply returns_bind; [apply get_room_alias_returns, (coop_alias _ C)|intros alias _].
    repeat case_match; try apply returns_ret; try apply returns_log.
    all: repeat first
      [ apply returns_log | apply handle_meeting_log_returns; done
      | apply returns_bind; [|intros ? ?]
      | apply (returns_out _ _ tt), (coop_read _ C) ]. }
  destruct H as [[] H]. done.
Qed.

(** After a successful fetch, [handle_meeting_log] asks for the summary,
    publishes it and clears the typing signal. *)
Lemma handle_meeting_log_fetched evt url meeting_log :
  set_typing w (room_id evt) 30000 = inr tt →
  http_get w url = inr meeting_log →
  let rest :=
    summary ← get_summary config w meeting_log;
    post_summary config w urlparse_path evt summary
      (participants config w meeting_log) url;;
    out (CSetTyping (room_id evt) 0) (set_typing w (room_id evt) 0) in
  let h := handle_meeting_log config w urlparse_path evt url in
  outbound h.1
  = CSetTyping (room_id evt) 30000 :: CHttpGet url :: outbound rest.1
  ∧ h.2 = rest.2.
Proof.
  intros Htyping Hget. cbv zeta.
  unfold handle_meeting_log, get_meeting_log, try_except, out.
  rewrite Htyping, Hget.
  unfold get_summary, out, mbind, M_bind, mret, M_ret, log. simpl.
  rewrite (extract_usernames_run config w urlparse_path). simpl.
  destruct (generate_content w (gemini_model config) meeting_log LLM_PROMPT)
    as [e|summary]; simpl; [done|].
  destruct (post_summary config w urlparse_path evt summary
              (participants config w meeting_log) url) as [t [e|[]]]; simpl;
    rewrite ?outbound_app; done.
Qed.

(** The calls of an admitted event whose transcript was fetched, up to the
    request to the AI backend. *)
Lemma on_message_fetched evt meeting_log :
  admits config evt →
  alias_lookup_ok w (room_id evt) = true →
  mark_read w (event_id evt) = inr tt →
  set_typing w (room_id evt) 30000 = inr tt →
  http_get w (transcript_url evt) = inr meeting_log →
  let rest :=
    summary ← get_summary config w meeting_log;
    post_summary config w urlparse_path evt summary
      (participants config w meeting_log) (transcript_url evt);;
    out (CSetTyping (room_id evt) 0) (set_typing w (room_id evt) 0) in
  let m := on_message config w urlparse_path evt in
  outbound m.1
  = [CGetStateEvent (room_id evt); CMarkRead (event_id evt);
     CSetTyping (room_id evt) 30000; CHttpGet (transcript_url evt)]
    ++ outbound rest.1
  ∧ m.2 = rest.2.
Proof.
  intros Hadm Hlook Hread Htyping Hget. cbv zeta.
  destruct (on_message_admitted config w urlparse_path evt Hadm Hlook Hread)
    as (-> & -> & _).
  destruct (handle_meeting_log_fetched evt (transcript_url evt) meeting_log
              Htyping Hget) as (-> & ->).
  done.
Qed.

(** Once the reply and both reactions are posted, what is left of
    [post_summary] is the archiving. *)
Lemma post_summary_published evt summary usernames url posted :
  respond w (event_id evt)
    (RESPONSE_TEMPLATE (PyStr.join ", " usernames) summary) true = inr posted →
  react w (room_id evt) posted "✅" = inr tt →
  react w (room_id evt) posted "❌" = inr tt →
  let archive :=
    summary_path ← lift (urlparse_path url);
    _save_summary_to_file config w summary (summary_path_of summary_path) false in
  let p := post_summary config w urlparse_path evt (Some summary) usernames url in
  outbound p.1
  = [CRespond (event_id evt)
       (RESPONSE_TEMPLATE (PyStr.join ", " usernames) summary) true;
     CReact (room_id evt) posted "✅"; CReact (room_id evt) posted "❌"]
    ++ outbound archive.1
  ∧ p.2 = archive.2.
Proof.
  intros Hr H1 H2. cbv zeta. unfold post_summary, out.
  rewrite Hr. unfold mbind, M_bind, log, lift. simpl. rewrite H1, H2. simpl.
  destruct (urlparse_path url) as [e|path]; simpl; [done|].
  destruct (_save_summary_to_file config w summary (summary_path_of path) false)
    as [t r]. done.
Qed.

(** X4: a fault of the AI backend is not caught: it leaves the handler, no
    reply is posted, and the typing signal stays set. *)
Theorem ai_fault_propagates evt meeting_log e :
  admits config evt →
  alias_lookup_ok w (room_id evt) = true →
  mark_read w (event_id evt) = inr tt →
  set_typing w (room_id evt) 30000 = inr tt →
  http_get w (transcript_url evt) = inr meeting_log →
  generate_content w (gemini_model config) meeting_log LLM_PROMPT = inl e →
  let m := on_message config w urlparse_path evt in
  m.2 = inl e
  ∧ outbound m.1
    = [CGetStateEvent (room_id evt); CMarkRead (event_id evt);
       CSetTyping (room_id evt) 30000; CHttpGet (transcript_url evt);
       CGenerateContent (gemini_model config) meeting_log LLM_PROMPT].
Proof.
  intros Hadm Hlook Hread Htyping Hget Hai. cbv zeta.
  destruct (on_message_fetched evt meeting_log Hadm Hlook Hread Htyping Hget)
    as (-> & ->).
  unfold get_summary, out. rewrite Hai. done.
Qed.

(** X5: when [urlparse] rejects the URL, the summary has already been posted
    with both reactions; nothing is archived, the [ValueError] leaves the
    handler and the typing signal stays set. *)
Theorem url_fault_after_publishing evt meeting_log summary posted e :
  admits config evt →
  alias_lookup_ok w (room_id evt) = true →
  mark_read w (event_id evt) = inr tt →
  set_typing w (room_id evt) 30000 = inr tt →
  http_get w (transcript_url evt) = inr meeting_log →
  generate_content w (gemini_model config) meeting_log LLM_PROMPT
  = inr (Some summary) →
  respond w (event_id evt)
    (RESPONSE_TEMPLATE (PyStr.join ", " (participants config w meeting_log)) summary)
    true = inr posted →
  react w (room_id evt) posted "✅" = inr tt →
  react w (room_id evt) posted "❌" = inr tt →
  urlparse_path (transcript_url evt) = inl e →
  let m := on_message config w urlparse_path evt in
  m.2 = inl e
  ∧ outbound m.1
    = [CGetStateEvent (room_id evt); CMarkRead (event_id evt);
       CSetTyping (room_id evt) 30000; CHttpGet (transcript_url evt);
       CGenerateContent (gemini_model config) meeting_log LLM_PROMPT;
       CRespond (event_id evt)
         (RESPONSE_TEMPLATE
            (PyStr.join ", " (participants config w meeting_log)) summary) true;
       CReact (room_id evt) posted "✅"; CReact (room_id evt) posted "❌"].
Proof.
  intros Hadm Hlook Hread Htyping Hget Hai Hr H1 H2 Hurl. cbv zeta.
  destruct (on_message_fetched evt meeting_log Hadm Hlook Hread Htyping Hget)
    as (-> & ->).
  destruct (post_summary_published evt summary
              (participants config w meeting_log) (transcript_url evt) posted
              Hr H1 H2) as (Hp1 & Hp2).
  unfold get_summary, out. rewrite Hai.
  erewrite bind_returned by reflexivity.
  assert (Hp2' : (post_summary config w urlparse_path evt (Some summary)
                    (participants config w meeting_log) (transcript_url evt)).2
                 = inl e).
  { rewrite Hp2. unfold lift. rewrite Hurl. done. }
  rewrite (bind_raised _ _ e Hp2'). cbn [fst snd].
  rewrite outbound_app, Hp1. unfold lift. rewrite Hurl. done.
Qed.

(** X6: the whole pipeline, when every step succeeds and archiving is on:
    the calls, in order. *)
Theorem on_message_success evt meeting_log summary posted url_path root :
  admits config evt →
  alias_lookup_ok w (room_id evt) = true →
  mark_read w (event_id evt) = inr tt →
  set_typing w (room_id evt) 30000 = inr tt →
  http_get w (transcript_url evt) = inr meeting_log →
  generate_content w (gemini_model config) meeting_log LLM_PROMPT
  = inr (Some summary) →
  let text := RESPONSE_TEMPLATE
                (PyStr.join ", " (participants config w meeting_log)) summary in
  respond w (event_id evt) text true = inr posted →
  react w (room_id evt) posted "✅" = inr tt →
  react w (room_id evt) posted "❌" = inr tt →
  urlparse_path (transcript_url evt) = inr url_path →
  meetings_directory config = Some root → root ≠ "" →
  let file := PurePath.div (PurePath.Path root) (summary_path_of url_path) in
  mkdir w (PurePath.str (PurePath.parent file)) = inr tt →
  write_text w (PurePath.str file) (UNVALIDATED_NOTE +:+ summary) = inr tt →
  let m := on_message config w urlparse_path evt in
  m.2 = set_typing w (room_id evt) 0
  ∧ outbound m.1
    = [CGetStateEvent (room_id evt); CMarkRead (event_id evt);
       CSetTyping (room_id evt) 30000; CHttpGet (transcript_url evt);
       CGenerateContent (gemini_model config) meeting_log LLM_PROMPT;
       CRespond (event_id evt) text true;
       CReact (room_id evt) posted "✅"; CReact (room_id evt) posted "❌";
       CMkdir (PurePath.str (PurePath.parent file));
       CWriteText (PurePath.str file) (UNVALIDATED_NOTE +:+ summary);
       CSetTyping (room_id evt) 0].
Proof.
  intros Hadm Hlook Hread Htyping Hget Hai text Hr H1 H2 Hurl Hdir Hroot file
    Hmk Hwr. cbv zeta.
  destruct (on_message_fetched evt meeting_log Hadm Hlook Hread Htyping Hget)
    as (-> & ->).
  destruct (post_summary_published evt summary
              (participants config w meeting_log) (transcript_url evt) posted
              Hr H1 H2) as (Hp1 & Hp2).
  assert (Hsave : _save_summary_to_file config w summary
                    (summary_path_of url_path) false
                  = ([Out (CMkdir (PurePath.str (PurePath.parent file)));
                      Out (CWriteText (PurePath.str file)
                             (UNVALIDATED_NOTE +:+ summary));
                      Log LvInfo [Txt "Saved summary to ";
                                  Txt (PurePath.str file)]], inr tt)).
  { unfold _save_summary_to_file, out. rewrite Hdir.
    destruct root as [|c0 root]; [done|]. simpl falsy. cbv iota.
    simpl negb. cbv iota. simpl default. fold file. rewrite Hmk, Hwr. done. }
  unfold lift in Hp1, Hp2. rewrite Hurl in Hp1, Hp2.
  rewrite (bind_returned ([], inr url_path) _ url_path eq_refl), Hsave in Hp1, Hp2.
  cbn [fst snd] in Hp1, Hp2.
  unfold get_summary, out. rewrite Hai.
  erewrite bind_returned by reflexivity.
  rewrite (bind_returned _ _ tt Hp2). cbn [fst snd].
  rewrite !outbound_app, Hp1. done.
Qed.

(** X7: after a successful fetch, a handler that completes has cleared the
    typing signal last. *)
Theorem completion_clears_typing evt meeting_log :
  admits config evt →
  alias_lookup_ok w (room_id evt) = true →
  mark_read w (event_id evt) = inr tt →
  set_typing w (room_id evt) 30000 = inr tt →
  http_get w (transcript_url evt) = inr meeting_log →
  (on_message config w urlparse_path evt).2 = inr tt →
  last (outbound (on_message config w urlparse_path evt).1)
  = Some (CSetTyping (room_id evt) 0).
Proof.
  intros Hadm Hlook Hread Htyping Hget.
  destruct (on_message_fetched evt meeting_log Hadm Hlook Hread Htyping Hget)
    as (-> & ->).
  unfold get_summary, out.
  destruct (generate_content w (gemini_model config) meeting_log LLM_PROMPT)
    as [e|summary]; [done|].
  erewrite bind_returned by reflexivity.
  destruct (post_summary config w urlparse_path evt summary
              (participants config w meeting_log) (transcript_url evt))
    as [t [e|[]]] eqn:Hp; [done|].
  erewrite bind_returned by reflexivity. cbn [fst snd]. intros _.
  rewrite !outbound_app, !app_assoc. apply last_snoc.
Qed.

(** X8: every call to the Matrix client is addressed to the room and the
    event that triggered the handler; typing is only ever set to 30000 or 0,
    and the reactions are the two fixed ones. *)
Theorem calls_addressed_to_event evt :
  calls_only (addressed_to evt) (on_message config w urlparse_path evt).
Proof.
  unfold on_message, handle_meeting_log, post_summary, _save_summary_to_file.
  calls;
    try (apply calls_only_out; simpl; auto; done);
    try (apply get_room_alias_calls; done);
    try (apply get_meeting_log_calls; done);
    try (apply extract_usernames_calls; done);
    try (apply get_summary_calls; done).
Qed.

(** X9: the room alias is used in log records only: with another answer to
    the lookup, the handler makes the same calls and ends the same way. *)
Theorem alias_only_logged evt lookup :
  alias_lookup_ok w (room_id evt) = true →
  alias_lookup_ok (with_alias w lookup) (room_id evt) = true →
  let m := on_message config w urlparse_path evt in
  let m' := on_message config (with_alias w lookup) urlparse_path evt in
  outbound m.1 = outbound m'.1 ∧ m.2 = m'.2.
Proof.
  intros Hok Hok'. cbv zeta.
  unfold on_message, _get_room_alias, try_except, out.
  unfold alias_lookup_ok in Hok, Hok'. simpl in Hok'. simpl get_state_event.
  change (handle_meeting_log config (with_alias w lookup))
    with (handle_meeting_log config w).
  change (mark_read (with_alias w lookup)) with (mark_read w).
  generalize (handle_meeting_log config w urlparse_path evt).
  intros h.
  unfold mbind, M_bind, mret, M_ret, log.
  destruct (get_state_event w (room_id evt)) as [e|a],
           (lookup (room_id evt)) as [e'|a'];
    repeat (case_decide || case_bool_decide || case_match || simplify_eq/=);
    done.
Qed.
End Completion.

(** ** The relative path of the archive *)

Lemma lstrip_not_leading (c : ascii) (s : string) :
  PyStr.startswith (PyStr.lstrip c s) (String c "") = false.
Proof.
  induction s as [|a s IH]; simpl; [done|].
  destruct (decide (a = c)) as [->|Hne]; [done|].
  simpl. destruct (decide (c = a)); [congruence | done].
Qed.

(** X10: the path handed to the archive is relative, whatever the URL: it
    never starts with a separator and always ends in [.summary.md]; so
    joining it to a directory keeps the directory. *)
Theorem summary_path_is_relative (url_path dir : string) :
  let rel := summary_path_of url_path in
  (∃ stem, rel = stem +:+ ".summary.md"
           ∧ PyStr.startswith stem "/" = false)
  ∧ PyStr.startswith rel "/" = false
  ∧ (PurePath.posix_join dir rel = dir +:+ rel
     ∨ PurePath.posix_join dir rel = dir +:+ "/" +:+ rel).
Proof.
  cbv zeta.
  assert (Hrel : PyStr.startswith (summary_path_of url_path) "/" = false)
    by apply lstrip_not_leading.
  split; [|split; [done|]].
  - exists (PyStr.lstrip "/"
              (PyStr.slice url_path None (Some (- PyStr.len ".log.txt")))).
    split; [|apply lstrip_not_leading].
    unfold summary_path_of, summary_path_suffixed.
    apply (lstrip_app_stop "/" _ "summary.md" "."). done.
  - unfold PurePath.posix_join. rewrite Hrel.
    destruct (bool_decide (dir = "") || PyStr.endswith dir "/"); auto.
Qed.

(** ** More on the configuration update *)

Lemma copy_sets (h : ConfigUpdateHelper.t) (key : string) :
  ConfigUpdateHelper.base (ConfigUpdateHelper.copy h key) !! key
  = if RecursiveDict.contains (ConfigUpdateHelper.source h) key
    then ConfigUpdateHelper.source h !! key
    else ConfigUpdateHelper.base h !! key.
Proof.
  unfold ConfigUpdateHelper.copy, RecursiveDict.contains, RecursiveDict.setitem,
    RecursiveDict.getitem.
  destruct (ConfigUpdateHelper.source h !! key) as [v|] eqn:Hv; simpl; [|done].
  destruct v; simpl; rewrite ?lookup_insert_eq; done.
Qed.

Lemma copy_source (h : ConfigUpdateHelper.t) (key : string) :
  ConfigUpdateHelper.source (ConfigUpdateHelper.copy h key)
  = ConfigUpdateHelper.source h.
Proof. unfold ConfigUpdateHelper.copy. by case_match. Qed.

(** The helper after the first two steps of [do_update], from which the
    three [copy] calls go on: its source differs from the stored
    configuration in [gemini] at most, its base from the default one in
    [gemini] at most. *)
Lemma do_update_steps (h h' : ConfigUpdateHelper.t) :
  Config.do_update h = inr h' →
  ∃ h1,
    h' = ConfigUpdateHelper.copy
           (ConfigUpdateHelper.copy (ConfigUpdateHelper.copy h1 "meetbot_id")
              "ignored_participants") "meetings_directory"
    ∧ (∀ k, k ≠ "gemini" →
            ConfigUpdateHelper.base h1 !! k = ConfigUpdateHelper.base h !! k
            ∧ ConfigUpdateHelper.source h1 !! k = ConfigUpdateHelper.source h !! k).
Proof.
  unfold Config.do_update.
  repeat (case_match; simplify_eq/=); intros [= <-]; eexists; (split; [reflexivity|]).
  all: intros k Hk.
  all: repeat match goal with
         | H : ConfigUpdateHelper.copy_dict _ _ = inr _ |- _ =>
             unfold ConfigUpdateHelper.copy_dict in H;
             repeat (case_match; simplify_eq/=)
         end.
  all: unfold RecursiveDict.setitem; simpl;
       rewrite ?lookup_insert_ne by done; done.
Qed.

Lemma plain_keys_after_do_update (h h' : ConfigUpdateHelper.t) :
  Config.do_update h = inr h' →
  (∀ k, k ∈ COPIED_KEYS →
        ConfigUpdateHelper.base h' !! k
        = if RecursiveDict.contains (ConfigUpdateHelper.source h) k
          then ConfigUpdateHelper.source h !! k
          else ConfigUpdateHelper.base h !! k)
  ∧ (∀ k, k ≠ "gemini" → k ∉ COPIED_KEYS →
          ConfigUpdateHelper.base h' !! k = ConfigUpdateHelper.base h !! k).
Proof.
  intros Hu. apply do_update_steps in Hu as (h1 & -> & Hk).
  assert (Hc : ∀ k, k ≠ "gemini" →
            RecursiveDict.contains (ConfigUpdateHelper.source h1) k
            = RecursiveDict.contains (ConfigUpdateHelper.source h) k).
  { intros k Hne. unfold RecursiveDict.contains, RecursiveDict.getitem.
    by rewrite (proj2 (Hk k Hne)). }
  split.
  - intros k Hin. unfold COPIED_KEYS in Hin.
    rewrite !elem_of_cons, elem_of_nil in Hin.
    destruct Hin as [->|[->|[->|[]]]].
    + rewrite !copy_keeps by done. rewrite copy_sets, Hc by done.
      destruct (Hk "meetbot_id" ltac:(done)) as [-> ->]. done.
    + rewrite copy_keeps by done. rewrite copy_sets, copy_source, Hc by done.
      rewrite copy_keeps by done.
      destruct (Hk "ignored_participants" ltac:(done)) as [-> ->]. done.
    + rewrite copy_sets, !copy_source, Hc by done. rewrite !copy_keeps by done.
      destruct (Hk "meetings_directory" ltac:(done)) as [-> ->]. done.
  - intros k Hg Hn. unfold COPIED_KEYS in Hn.
    rewrite !not_elem_of_cons in Hn. destruct Hn as (H1 & H2 & H3 & _).
    rewrite !copy_keeps by done. by destruct (Hk k Hg) as [-> _].
Qed.

Lemma do_update_with_model (h : ConfigUpdateHelper.t) (g : gmap string yaml) :
  ConfigUpdateHelper.source h !! "gemini" = Some (YMap g) →
  is_Some (g !! "model") →
  ∃ h', Config.do_update h = inr h'
        ∧ ConfigUpdateHelper.base h' !! "gemini" = Some (YMap g).
Proof.
  destruct h as [base stored]. simpl. intros Hg [x Hx].
  unfold Config.do_update.
  config_step. eexists; split; [reflexivity|].
  rewrite !copy_keeps by done. simpl.
  by rewrite lookup_insert_eq, copy_entries.
Qed.

(** X11: for each of the three plain keys, the stored value wins when there
    is one (a null counts as none), the default stays otherwise; keys that
    [do_update] does not name keep the default, so a stored key outside the
    four is dropped. *)
Theorem update_copies_plain_keys (stored base updated : gmap string yaml) :
  Config.update stored base = inr updated →
  (∀ k, k ∈ COPIED_KEYS →
        updated !! k = if RecursiveDict.contains stored k
                       then stored !! k else base !! k)
  ∧ (∀ k, k ≠ "gemini" → k ∉ COPIED_KEYS → updated !! k = base !! k).
Proof.
  unfold Config.update.
  destruct (Config.do_update (ConfigUpdateHelper.Build base stored))
    as [e|h'] eqn:Hu; [done|].
  intros [= <-].
  exact (plain_keys_after_do_update _ _ Hu).
Qed.

(** X12: a stored [gemini] section that has a model replaces the default
    section as a whole: the update succeeds whatever the default
    configuration is, and the keys that only the default section has are
    gone. *)
Theorem update_replaces_gemini (stored base g : gmap string yaml) :
  stored !! "gemini" = Some (YMap g) → is_Some (g !! "model") →
  ∃ updated, Config.update stored base = inr updated
             ∧ updated !! "gemini" = Some (YMap g).
Proof.
  intros Hg Hm.
  destruct (do_update_with_model (ConfigUpdateHelper.Build base stored) g Hg Hm)
    as (h' & Hu & Hb).
  exists (ConfigUpdateHelper.base h'). split; [|done].
  unfold Config.update. by rewrite Hu.
Qed.

(** X13: the update raises exactly when the stored [gemini] value is neither
    absent, null nor a mapping, or is a mapping without model while the
    default configuration has no [gemini.model] to fill in. *)
Theorem update_fails_iff (stored base : gmap string yaml) :
  (∃ e, Config.update stored base = inl e)
  ↔ match stored !! "gemini" with
    | None | Some YNull => False
    | Some (YMap g) => g !! "model" = None ∧ Config.gemini_model base = None
    | Some _ => True
    end.
Proof.
  unfold Config.update, Config.do_update, Config.gemini_model.
  destruct (stored !! "gemini") as [[| | | | |g]|] eqn:Hg.
  - config_step. split; [by intros [e ?] | done].
  - config_step. split; eauto.
  - config_step. split; eauto.
  - config_step. split; [done|intros _].
    destruct (PyVal.is_substring "model" s); config_step; eauto.
    destruct (base !! "gemini") as [[| | | | |bg]|]; config_step; eauto.
    destruct (bg !! "model"); config_step; eauto.
  - config_step. split; [done|intros _].
    destruct (existsb _ l); config_step; eauto.
    destruct (base !! "gemini") as [[| | | | |bg]|]; config_step; eauto.
    destruct (bg !! "model"); config_step; eauto.
  - config_step. destruct (g !! "model") as [x|] eqn:Hx; config_step.
    + split; [by intros [e ?] | by intros [? _]].
    + destruct (base !! "gemini") as [[| | | | |bg]|] eqn:Hbg; config_step;
        try (split; eauto; done).
      destruct (bg !! "model") as [v|] eqn:Hv; config_step.
      * split; [by intros [e ?] | by intros [_ ?]].
      * split; eauto.
  - config_step. split; [by intros [e ?] | done].
Qed.

(** X14: updating an updated configuration changes nothing, provided the
    default configuration has a [gemini.model] (without one the second
    update can fail). *)
Theorem update_idempotent (stored base updated : gmap string yaml) :
  is_Some (Config.gemini_model base) →
  Config.update stored base = inr updated →
  Config.update updated base = inr updated.
Proof.
  intros [v Hv] Hu.
  assert (Hgem : ∃ g, updated !! "gemini" = Some (YMap g) ∧ is_Some (g !! "model")).
  { unfold Config.gemini_model in Hv.
    destruct (base !! "gemini") as [[| | | | |bg]|] eqn:Hbg; try done.
    pose proof (update_cases stored base bg v Hbg Hv) as Hc.
    destruct (stored !! "gemini") as [[| | | | |g]|];
      try (destruct Hc as (e & He); congruence);
      destruct Hc as (u & Hu' & Hg);
      (assert (u = updated) as -> by congruence).
    1, 3: exists bg; split; [done | by eexists].
    destruct (g !! "model") eqn:Hx; eexists; (split; [done|]);
      [by eexists | by rewrite lookup_insert_eq]. }
  destruct Hgem as (g & Hg & Hm).
  destruct (do_update_with_model (ConfigUpdateHelper.Build base updated) g Hg Hm)
    as (h2 & Hd2 & Hg').
  unfold Config.update in Hu |- *.
  destruct (Config.do_update (ConfigUpdateHelper.Build base stored))
    as [e|h1] eqn:Hd1; [done|].
  injection Hu as <-. rewrite Hd2. f_equal. apply map_eq. intros k.
  destruct (plain_keys_after_do_update _ _ Hd1) as [Hplain Hother].
  destruct (plain_keys_after_do_update _ _ Hd2) as [Hplain' Hother'].
  simpl in *.
  destruct (decide (k = "gemini")) as [->|Hk]; [congruence|].
  destruct (decide (k ∈ COPIED_KEYS)) as [Hin|Hin].
  - rewrite (Hplain' k Hin). specialize (Hplain k Hin).
    unfold RecursiveDict.contains, RecursiveDict.getitem in *.
    destruct (ConfigUpdateHelper.base h1 !! k) as [[]|] eqn:Hupd; simpl;
      try done;
      destruct (stored !! k) as [[]|]; simpl in *; congruence.
  - by rewrite (Hother' k Hk Hin), (Hother k Hk Hin).
Qed.

(** ** More on the participants *)

(** X2: every identity that [extract_usernames] returns is an [@] followed
    by at least one character, none of them [>]. *)
Theorem extracted_identities_shape config w (meeting_log : string) :
  ∃ result,
    (extract_usernames config w meeting_log).2 = inr result
    ∧ ∀ u, u ∈ result →
           ∃ name, u = "@" +:+ name ∧ name ≠ ""
                   ∧ PyStr.contains ">" name = false.
Proof.
  exists (participants config w meeting_log).
  split; [apply extract_usernames_returns|].
  intros u Hu. unfold participants in Hu.
  apply sorted_spec in Hu. apply elem_of_difference in Hu as [Hu _].
  apply elem_of_list_to_set in Hu.
  by apply (speakers_identities (unicode_decimal w) meeting_log _
              (findall_speakers _ meeting_log)).
Qed.

(** ** The extra properties on the concrete deployment *)

Lemma demo_cooperative fetched summary :
  cooperative (Demo.world fetched (inr summary)).
Proof. split; intros; simpl; eauto. Qed.

Lemma on_message_completes_witness :
  (on_message Demo.config (Demo.world (inl Demo.not_found) (inr None))
     Url.urlparse_path Demo.announcement).2 = inr tt.
Proof.
  apply (on_message_completes Demo.config
           (Demo.world (inl Demo.not_found) (inr None))
           Url.urlparse_path Demo.announcement).
  - apply demo_cooperative.
  - exists "/meetings/2025-09-25.log.txt". reflexivity.
Defined.

Lemma ai_fault_propagates_witness :
  (on_message Demo.config
     (Demo.world (inr Demo.transcript) (inl Demo.quota_exceeded))
     Url.urlparse_path Demo.announcement).2 = inl Demo.quota_exceeded.
Proof.
  apply (ai_fault_propagates Demo.config
           (Demo.world (inr Demo.transcript) (inl Demo.quota_exceeded))
           Url.urlparse_path Demo.announcement Demo.transcript
           Demo.quota_exceeded);
    [apply admits_announcement | reflexivity..].
Defined.

Lemma admits_bad_announcement : admits Demo.config Demo.bad_announcement.
Proof. repeat split. Qed.

Lemma url_fault_after_publishing_witness :
  (on_message Demo.config
     (Demo.world (inr Demo.transcript) (inr (Some "- done")))
     Url.urlparse_path Demo.bad_announcement).2
  = inl (Exn ValueError "Invalid IPv6 URL").
Proof.
  apply (url_fault_after_publishing Demo.config
           (Demo.world (inr Demo.transcript) (inr (Some "- done")))
           Url.urlparse_path Demo.bad_announcement Demo.transcript "- done"
           "$summary" (Exn ValueError "Invalid IPv6 URL"));
    [apply admits_bad_announcement | reflexivity..].
Defined.

Lemma on_message_success_witness :
  (on_message Demo.config
     (Demo.world (inr Demo.transcript) (inr (Some "- done")))
     Url.urlparse_path Demo.announcement).2 = inr tt.
Proof.
  apply (on_message_success Demo.config
           (Demo.world (inr Demo.transcript) (inr (Some "- done")))
           Url.urlparse_path Demo.announcement Demo.transcript "- done"
           "$summary" "/meetings/2025-09-25.log.txt" "/data/minutes");
    [apply admits_announcement | reflexivity.. | done | reflexivity | reflexivity].
Defined.

Lemma completion_clears_typing_witness :
  last (outbound (on_message Demo.config
                    (Demo.world (inr Demo.transcript) (inr None))
                    Url.urlparse_path Demo.announcement).1)
  = Some (CSetTyping "!room:fedora.im" 0).
Proof.
  apply (completion_clears_typing Demo.config
           (Demo.world (inr Demo.transcript) (inr None))
           Url.urlparse_path Demo.announcement Demo.transcript);
    [apply admits_announcement | reflexivity..].
Defined.

Lemma alias_only_logged_witness :
  outbound (on_message Demo.config
              (Demo.world (inr Demo.transcript) (inr None))
              Url.urlparse_path Demo.announcement).1
  = outbound (on_message Demo.config
                (with_alias (Demo.world (inr Demo.transcript) (inr None))
                   (λ _, inl (Exn MNotFound "M_NOT_FOUND")))
                Url.urlparse_path Demo.announcement).1.
Proof.
  apply (alias_only_logged Demo.config
           (Demo.world (inr Demo.transcript) (inr None))
           Url.urlparse_path Demo.announcement
           (λ _, inl (Exn MNotFound "M_NOT_FOUND"))); reflexivity.
Defined.

Lemma update_copies_plain_keys_witness :
  ∃ updated,
    Config.update Demo.stored_with_model Demo.base_config = inr updated
    ∧ updated !! "meetbot_id" = Some (YStr "@meetbot:fedora.im")
    ∧ updated !! "unknown_option" = None.
Proof.
  destruct (Config.update Demo.stored_with_model Demo.base_config)
    as [e|updated] eqn:Hu; [vm_compute in Hu; discriminate Hu|].
  exists updated. split; [reflexivity|].
  destruct (update_copies_plain_keys Demo.stored_with_model Demo.base_config
              updated Hu) as [Hplain Hother].
  split.
  - rewrite (Hplain "meetbot_id"); [reflexivity|].
    apply (bool_decide_unpack _). vm_compute. exact I.
  - rewrite (Hother "unknown_option"); [reflexivity | done |].
    apply (bool_decide_unpack _). vm_compute. exact I.
Defined.

Lemma update_replaces_gemini_witness :
  ∃ updated,
    Config.update Demo.stored_with_model Demo.base_config = inr updated
    ∧ updated !! "gemini"
      = Some (YMap {[ "api_key" := YStr "secret";
                      "model" := YStr "gemini-2.0-pro" ]}).
Proof.
  apply (update_replaces_gemini Demo.stored_with_model Demo.base_config
           {[ "api_key" := YStr "secret"; "model" := YStr "gemini-2.0-pro" ]}).
  - reflexivity.
  - exists (YStr "gemini-2.0-pro"). reflexivity.
Defined.

Lemma update_idempotent_witness :
  ∃ updated,
    Config.update Demo.stored_config Demo.base_config = inr updated
    ∧ Config.update updated Demo.base_config = inr updated.
Proof.
  destruct (Config.update Demo.stored_config Demo.base_config)
    as [e|updated] eqn:Hu; [vm_compute in Hu; discriminate Hu|].
  exists updated. split; [reflexivity|].
  apply (update_idempotent Demo.stored_config Demo.base_config updated);
    [by exists (YStr "gemini-2.5-flash") | exact Hu].
Defined.

(** A timestamp in Arabic-Indic digits is a timestamp, one with a
    superscript digit is not, and a name may hold characters of several
    bytes. *)
Example participants_any_decimal_digit :
  participants Demo.config (Demo.world (inr "") (inr None))
    ("٢٠٢٥-٠٩-٢٥ ٠٨:٢٦:٠٠ <@eve:server.tld> hi" +:+ nl
     +:+ "²025-09-25 08:26:01 <@dan:server.tld> hi" +:+ nl
     +:+ "2025-09-25 08:26:02 <@zoë:server.tld> hi")
  = ["@eve:server.tld"; "@zoë:server.tld"].
Proof. vm_compute. reflexivity. Qed.

(** The length of a text counts its characters. *)
Example len_counts_characters : Utf8.len "zoë ٢٠٢٥" = 8.
Proof. reflexivity. Qed.

(** The transcript of the deployment: two participants, the bot that is
    ignored left out, each once. *)
Example participants_of_transcript :
  participants Demo.config (Demo.world (inr Demo.transcript) (inr None))
    Demo.transcript
  = ["@alice:server.tld"; "@bob:server.tld"].
Proof. vm_compute. reflexivity. Qed.
